(** * eCourts scraper: the extraction and matching core of
      [Project/ecourts_scraper.py], embedded in Rocq.

    The development follows the layers of the Python file:
    - [Py]: the [str] operations the code calls ([strip], [lower], [join],
      [in], slicing), on code points below 256 with Python's classification
      of them;
    - [Re]: a backtracking matcher for the fragment of [re] the patterns of the
      file use (classes, greedy bounded repeats of a class, alternation,
      groups, [\b]), with [search], [fullmatch], [match], [finditer], [sub];
    - [Scraper]: [parse_case_status_html], [parse_cause_list_html],
      [find_case_in_cause_list], [is_date_in_hearings], the date helpers and
      step 3 of [main] (the listing resolver);
    - [Util] and [Main]: [sanitize_filename], and steps 1 to 3 of [main] with
      the snapshot and the console verdict, the browser's pages taken as
      inputs. *)

From Stdlib Require Import String Ascii List Bool Arith NArith ZArith Lia Sorted.
Import ListNotations.

Set Warnings "-register-all".

(** ** Python strings *)

Module Py.

(** A [str] is the sequence of its code points; the model covers the code
    points 0..255. *)
Definition str := list ascii.

Definition lit (s : string) : str := list_ascii_of_string s.

Definition code (c : ascii) : nat := nat_of_ascii c.

Definition between (lo hi : nat) (c : ascii) : bool :=
  (lo <=? code c) && (code c <=? hi).

(** [str.isspace] on one character, which is also [\s] of a [str] pattern:
    TAB..CR, FS..US, SPACE, NEL, NBSP. *)
Definition isspace (c : ascii) : bool :=
  between 9 13 c || between 28 32 c || (code c =? 133) || (code c =? 160).

(** [\d] of a [str] pattern: the decimal digits; below 256 these are 0..9. *)
Definition isdecimal (c : ascii) : bool := between 48 57 c.

Definition isupper_ascii (c : ascii) : bool := between 65 90 c.
Definition islower_ascii (c : ascii) : bool := between 97 122 c.
Definition isalpha_ascii (c : ascii) : bool := isupper_ascii c || islower_ascii c.

(** [\w] of a [str] pattern: alphanumeric code points and the underscore. *)
Definition isword (c : ascii) : bool :=
  isdecimal c || isalpha_ascii c || (code c =? 95)
  || (code c =? 170) || (code c =? 178) || (code c =? 179) || (code c =? 181)
  || (code c =? 185) || (code c =? 186) || between 188 190 c
  || between 192 214 c || between 216 246 c || between 248 255 c.

(** [str.lower] on one character: A..Z and the capitals of 192..222 (but the
    multiplication sign 215) move up by 32. Below 256 the result of
    [str.lower] depends on the character alone; the one rule that looks at
    the neighbours, for the capital sigma, lies beyond these code points. *)
Definition lower_char (c : ascii) : ascii :=
  if isupper_ascii c || between 192 214 c || between 216 222 c
  then ascii_of_nat (code c + 32) else c.

(** The simple upper-case mapping, where its value stays below 256. *)
Definition upper_char (c : ascii) : ascii :=
  if islower_ascii c || between 224 246 c || between 248 254 c
  then ascii_of_nat (code c - 32) else c.

Definition lower (s : str) : str := map lower_char s.

Fixpoint lstrip (s : str) : str :=
  match s with
  | c :: t => if isspace c then lstrip t else s
  | [] => []
  end.

Definition rstrip (s : str) : str := rev (lstrip (rev s)).

(** [s.strip()] *)
Definition strip (s : str) : str := rstrip (lstrip s).

(** [sep.join(l)] *)
Fixpoint join (sep : str) (l : list str) : str :=
  match l with
  | [] => []
  | [x] => x
  | x :: t => x ++ sep ++ join sep t
  end.

Definition eqb_char (a b : ascii) : bool := Ascii.eqb a b.

Fixpoint eqb_str (a b : str) : bool :=
  match a, b with
  | [], [] => true
  | x :: a', y :: b' => eqb_char x y && eqb_str a' b'
  | _, _ => false
  end.

Fixpoint startswith (p s : str) : bool :=
  match p, s with
  | [], _ => true
  | x :: p', y :: s' => eqb_char x y && startswith p' s'
  | _ :: _, [] => false
  end.

(** [needle in hay] *)
Fixpoint contains (needle hay : str) : bool :=
  startswith needle hay ||
  match hay with
  | [] => false
  | _ :: t => contains needle t
  end.

(** [s[a:b]] for [0 <= a] and [0 <= b]. *)
Definition slice {A} (a b : nat) (s : list A) : list A := firstn (b - a) (skipn a s).

End Py.

Import Py.

(** ** The fragment of [re] the file uses *)

Module Re.

Inductive regex : Type :=
| Eps
| Chr (p : ascii -> bool)                          (* one character of a class *)
| Cat (r1 r2 : regex)
| Alt (r1 r2 : regex)                              (* r1|r2, r1 tried first *)
| Rep (p : ascii -> bool) (lo : nat) (hi : option nat)  (* greedy p{lo,hi} *)
| Grp (n : nat) (r : regex)                        (* capturing group n *)
| Wb.                                              (* \b *)

(** A position in the subject: its index, the character before it and the
    text from it on. *)
Record cursor : Type := Cursor { c_pos : nat; c_prev : option ascii; c_rest : str }.

Definition start_of (s : str) : cursor := Cursor 0 None s.

(** The groups closed so far, latest first. *)
Definition caps := list (nat * str).

Definition isword_opt (o : option ascii) : bool :=
  match o with Some c => isword c | None => false end.

(** [\b]: exactly one side of the position is a word character. *)
Definition at_boundary (c : cursor) : bool :=
  xorb (isword_opt (c_prev c)) (isword_opt (hd_error (c_rest c))).

Definition hi_allows (hi : option nat) : bool :=
  match hi with Some 0 => false | _ => true end.

Definition or_else {R} (a b : option R) : option R :=
  match a with Some x => Some x | None => b end.

Section Exec.
Variable R : Type.

(** Greedy repeat of a class: take one more character while allowed, and fall
    back to stopping here once the minimum is reached. *)
Fixpoint rep (p : ascii -> bool) (lo : nat) (hi : option nat)
    (pos : nat) (prev : option ascii) (rest : str)
    (k : cursor -> option R) : option R :=
  let stop := if lo =? 0 then k (Cursor pos prev rest) else None in
  match rest with
  | a :: t =>
      if p a && hi_allows hi
      then or_else (rep p (pred lo) (option_map pred hi) (S pos) (Some a) t k) stop
      else stop
  | [] => stop
  end.

Fixpoint exec (r : regex) (c : cursor) (g : caps)
    (k : cursor -> caps -> option R) : option R :=
  match r with
  | Eps => k c g
  | Chr p =>
      match c_rest c with
      | a :: t => if p a then k (Cursor (S (c_pos c)) (Some a) t) g else None
      | [] => None
      end
  | Cat r1 r2 => exec r1 c g (fun c' g' => exec r2 c' g' k)
  | Alt r1 r2 => or_else (exec r1 c g k) (exec r2 c g k)
  | Rep p lo hi => rep p lo hi (c_pos c) (c_prev c) (c_rest c) (fun c' => k c' g)
  | Grp n r1 =>
      exec r1 c g
        (fun c' g' => k c' ((n, firstn (c_pos c' - c_pos c) (c_rest c)) :: g'))
  | Wb => if at_boundary c then k c g else None
  end.

End Exec.

Arguments rep {R} p lo hi pos prev rest k.
Arguments exec {R} r c g k.

(** A match object: [start()], [end()] and the groups. *)
Record rmatch : Type := Match { m_start : nat; m_end : nat; m_caps : caps }.

Fixpoint lookup (n : nat) (g : caps) : option str :=
  match g with
  | [] => None
  | (i, s) :: t => if i =? n then Some s else lookup n t
  end.

(** [m.group(n)]; a group that did not take part is the empty text here (no
    pattern of the file reads such a group). *)
Definition group (n : nat) (m : rmatch) : str :=
  match lookup n (m_caps m) with Some s => s | None => [] end.

(** The match that starts at a position, if there is one. *)
Definition match_at (r : regex) (c : cursor) : option rmatch :=
  exec r c [] (fun c' g => Some (Match (c_pos c) (c_pos c') g)).

(** [re.match(r, s)] *)
Definition match_ (r : regex) (s : str) : option rmatch := match_at r (start_of s).

(** [re.fullmatch(r, s)] *)
Definition fullmatch (r : regex) (s : str) : option rmatch :=
  exec r (start_of s) []
    (fun c' g => match c_rest c' with
                 | [] => Some (Match 0 (c_pos c') g)
                 | _ :: _ => None
                 end).

Fixpoint search_from (r : regex) (pos : nat) (prev : option ascii) (rest : str)
    : option rmatch :=
  match match_at r (Cursor pos prev rest) with
  | Some m => Some m
  | None =>
      match rest with
      | a :: t => search_from r (S pos) (Some a) t
      | [] => None
      end
  end.

(** [re.search(r, s)]: the match at the leftmost position that has one. *)
Definition search (r : regex) (s : str) : option rmatch := search_from r 0 None s.

(** [re.finditer(r, s)] for a pattern that cannot match the empty text: the
    scan resumes at the end of each match. [skip] counts the characters of the
    last match still to pass. *)
Fixpoint finditer_from (r : regex) (pos : nat) (prev : option ascii) (rest : str)
    (skip : nat) : list rmatch :=
  match rest with
  | [] => []
  | a :: t =>
      match skip with
      | S n => finditer_from r (S pos) (Some a) t n
      | 0 =>
          match match_at r (Cursor pos prev rest) with
          | Some m => m :: finditer_from r (S pos) (Some a) t (m_end m - pos - 1)
          | None => finditer_from r (S pos) (Some a) t 0
          end
      end
  end.

Definition finditer (r : regex) (s : str) : list rmatch := finditer_from r 0 None s 0.

(** [re.sub(r, repl, s)] for a pattern that cannot match the empty text and a
    replacement without group references. *)
Fixpoint sub_from (r : regex) (repl : str) (pos : nat) (prev : option ascii)
    (rest : str) (skip : nat) : str :=
  match rest with
  | [] => []
  | a :: t =>
      match skip with
      | S n => sub_from r repl (S pos) (Some a) t n
      | 0 =>
          match match_at r (Cursor pos prev rest) with
          | Some m => repl ++ sub_from r repl (S pos) (Some a) t (m_end m - pos - 1)
          | None => a :: sub_from r repl (S pos) (Some a) t 0
          end
      end
  end.

Definition sub (r : regex) (repl : str) (s : str) : str := sub_from r repl 0 None s 0.

(** *** Pattern syntax *)

Definition star (p : ascii -> bool) : regex := Rep p 0 None.
Definition plus (p : ascii -> bool) : regex := Rep p 1 None.
Definition opt (p : ascii -> bool) : regex := Rep p 0 (Some 1).
Definition times (p : ascii -> bool) (n : nat) : regex := Rep p n (Some n).

Definition is_char (x : ascii) : ascii -> bool := eqb_char x.

(** A character under [re.I]: equal up to case. *)
Definition is_char_i (x : ascii) : ascii -> bool :=
  fun c => eqb_char (lower_char c) (lower_char x).

(** A class under [re.I]: the character, its lower case or its upper case is
    in the class. Beyond the code points of the model [re.I] lets four more
    letters into a class of ASCII letters (the dotted capital I, the dotless
    i, the long s and the Kelvin sign). *)
Definition icase (p : ascii -> bool) : ascii -> bool :=
  fun c => p c || p (lower_char c) || p (upper_char c).

Definition one_of (s : string) : ascii -> bool :=
  fun c => existsb (eqb_char c) (lit s).

Definition cat_all (l : list regex) : regex := fold_right Cat Eps l.

(** A literal text, and the same under [re.I]. *)
Definition chars (s : string) : regex := cat_all (map (fun x => Chr (is_char x)) (lit s)).
Definition chars_i (s : string) : regex := cat_all (map (fun x => Chr (is_char_i x)) (lit s)).

End Re.

Import Re.

(** ** The parsed page, as BeautifulSoup hands it to the code *)

Module Soup.

(** The tree the parser builds: text nodes and elements with a lower-case tag
    name. Comments and other nodes that [get_text] passes over are left out. *)
Inductive node : Type :=
| Text (s : str)
| Elem (tag : str) (children : list node).

(** The elements below a node, in document order. *)
Fixpoint descendants (n : node) : list node :=
  match n with
  | Text _ => []
  | Elem _ cs => flat_map (fun c => c :: descendants c) cs
  end.

Definition has_tag (names : list str) (n : node) : bool :=
  match n with
  | Text _ => false
  | Elem t _ => existsb (eqb_str t) names
  end.

(** [n.find_all(names)] *)
Definition find_all (names : list str) (n : node) : list node :=
  filter (has_tag names) (descendants n).

(** The text nodes of a node, in document order. *)
Fixpoint strings (n : node) : list str :=
  match n with
  | Text s => [s]
  | Elem _ cs => flat_map strings cs
  end.

Definition nonempty (s : str) : bool :=
  match s with [] => false | _ :: _ => true end.

(** [n.get_text(sep, strip=True)]: every text node stripped, the empty ones
    dropped, the rest joined. *)
Definition get_text (sep : str) (n : node) : str :=
  join sep (filter nonempty (map strip (strings n))).

End Soup.

Import Soup.

(** ** The scraper *)

Module Scraper.

(** What the modelled code can raise. *)
Inductive exn : Type := IndexError | OverflowError.

Inductive res (A : Type) : Type :=
| Ok (a : A)
| Raise (e : exn).

Arguments Ok {A} a.
Arguments Raise {A} e.

Definition bind {A B} (m : res A) (f : A -> res B) : res B :=
  match m with
  | Ok a => f a
  | Raise e => Raise e
  end.

Notation "x <- m ;; f" := (bind m (fun x => f))
  (at level 61, m at next level, right associativity).

(** [l[i]] *)
Definition index {A} (l : list A) (i : nat) : res A :=
  match nth_error l i with
  | Some a => Ok a
  | None => Raise IndexError
  end.

(** A [for] loop whose body may raise or append to the result. *)
Fixpoint for_each {A B} (f : A -> res (list B)) (l : list A) : res (list B) :=
  match l with
  | [] => Ok []
  | a :: t => out <- f a ;; rest <- for_each f t ;; Ok (out ++ rest)
  end.

Definition is_some {A} (o : option A) : bool :=
  match o with Some _ => true | None => false end.

(** Truth value of an optional text: [None] and the empty text are false. *)
Definition truthy (o : option str) : bool :=
  match o with Some (_ :: _) => true | _ => false end.

(** *** The patterns of the file *)

Definition colon_or_dash : ascii -> bool := one_of ":-".

(** [\s*[:\-]?\s*] *)
Definition sep_re : regex := cat_all [star isspace; opt colon_or_dash; star isspace].

(** [(Case\s*No\.?|Case\s*Number)\s*[:\-]?\s*([A-Za-z./\-\s]*\d+\/\d{4})], re.I *)
Definition case_no_re : regex :=
  cat_all
    [Grp 1 (Alt (cat_all [chars_i "Case"; star isspace; chars_i "No"; opt (is_char ".")])
                (cat_all [chars_i "Case"; star isspace; chars_i "Number"]));
     sep_re;
     Grp 2 (cat_all [star (icase (fun c => isalpha_ascii c || one_of "./-" c || isspace c));
                     plus isdecimal; Chr (is_char "/"); times isdecimal 4])].

Definition upper_alnum (c : ascii) : bool := isupper_ascii c || isdecimal c.

(** [(CNR\s*No\.?)\s*[:\-]?\s*([A-Z0-9]{16})], re.I *)
Definition cnr_re : regex :=
  cat_all
    [Grp 1 (cat_all [chars_i "CNR"; star isspace; chars_i "No"; opt (is_char ".")]);
     sep_re;
     Grp 2 (times (icase upper_alnum) 16)].

Definition not_newline (c : ascii) : bool := negb ((code c =? 10) || (code c =? 13)).

(** [(Court\s*Name|Court)\s*[:\-]?\s*([^\n\r]+)], re.I *)
Definition court_re : regex :=
  cat_all
    [Grp 1 (Alt (cat_all [chars_i "Court"; star isspace; chars_i "Name"]) (chars_i "Court"));
     sep_re;
     Grp 2 (plus not_newline)].

(** [(\d{2}-\d{2}-\d{4})] *)
Definition date_re : regex :=
  Grp 1 (cat_all [times isdecimal 2; Chr (is_char "-"); times isdecimal 2;
                  Chr (is_char "-"); times isdecimal 4]).

Definition purpose_char (c : ascii) : bool :=
  isalpha_ascii c || isdecimal c || one_of " ,./()_-" c.

(** [(Purpose|Stage)\s*[:\-]?\s*([A-Za-z0-9 ,./()_-]{3,60})], re.I *)
Definition purpose_re : regex :=
  cat_all
    [Grp 1 (Alt (chars_i "Purpose") (chars_i "Stage"));
     sep_re;
     Grp 2 (Rep (icase purpose_char) 3 (Some 60))].

(** [\d{1,4}] *)
Definition serial_re : regex := Rep isdecimal 1 (Some 4).

(** [(?i)(sr\.?\s*no\.?|serial)] *)
Definition header_re : regex :=
  Grp 1 (Alt (cat_all [chars_i "sr"; opt (is_char "."); star isspace; chars_i "no";
                       opt (is_char ".")])
             (chars_i "serial")).

(** [\b\d{1,6}\/\d{4}\b] *)
Definition case_ref_re : regex :=
  cat_all [Wb; Rep isdecimal 1 (Some 6); Chr (is_char "/"); times isdecimal 4; Wb].

(** [[A-Za-z]{1,10}\s*\d{1,6}\/\d{4}] *)
Definition typed_case_ref_re : regex :=
  cat_all [Rep isalpha_ascii 1 (Some 10); star isspace; Rep isdecimal 1 (Some 6);
           Chr (is_char "/"); times isdecimal 4].

(** [(?i)(purpose|stage|for hearing|listing)] *)
Definition purpose_word_re : regex :=
  Grp 1 (Alt (chars_i "purpose") (Alt (chars_i "stage")
        (Alt (chars_i "for hearing") (chars_i "listing")))).

(** [(?i)\bCourt\b] *)
Definition court_word_re : regex := cat_all [Wb; chars_i "Court"; Wb].

(** [\s+] *)
Definition ws_re : regex := plus isspace.

(** *** Records *)

Record Hearing : Type := { h_date : str; h_purpose : option str }.

Record CaseOverview : Type := {
  cnr : option str;
  case_number : option str;
  court_name : option str;
  hearings : list Hearing
}.

Record ScheduleRow : Type := {
  serial : str;
  case_text : option str;
  purpose : option str;
  court_info : option str;
  raw_cells : list str
}.

Record Details : Type := {
  d_serial : str;
  d_court : option str;
  d_case_text : option str;
  d_purpose : option str
}.

Record ListingDecision : Type := {
  listed_today : option bool;
  listed_tomorrow : option bool;
  listing_details : option Details
}.

(** *** parse_case_status_html *)

(** [m.group(2).strip()] of the first match, or [None]. *)
Definition field (r : regex) (text : str) : option str :=
  option_map (fun m => strip (group 2 m)) (search r text).

(** The body of the loop over the date matches. On [nat] the subtraction
    already stops at 0, as the [max] of the code does. *)
Definition hearing_of (text : str) (dt_match : rmatch) : Hearing :=
  let dt := group 1 dt_match in
  let span_start := Nat.max (m_start dt_match - 60) 0 in
  let span_end := Nat.min (m_end dt_match + 80) (length text) in
  let window := slice span_start span_end text in
  {| h_date := dt; h_purpose := field purpose_re window |}.

(** The part of [parse_case_status_html] after the text is flattened. *)
Definition extract_case_overview (text : str) : CaseOverview :=
  {| cnr := field cnr_re text;
     case_number := field case_no_re text;
     court_name := field court_re text;
     hearings := map (hearing_of text) (finditer date_re text) |}.

Definition parse_case_status_html (soup : node) : CaseOverview :=
  extract_case_overview (get_text (lit " ") soup).

(** *** parse_cause_list_html *)

Definition found (r : regex) (s : str) : bool := is_some (search r s).

(** The cells of a row: the text of each [td] and [th] below it. *)
Definition cells_of (tr : node) : list str :=
  map (get_text (lit " ")) (find_all [lit "td"; lit "th"] tr).

(** The body of the loop over the rows: the entries it appends. *)
Definition row_entries (tds : list str) : res (list ScheduleRow) :=
  if (length tds =? 0) || (length tds <? 2) then Ok []
  else
    first <- index tds 0 ;;
    let serial_or_skip :=
      if is_some (fullmatch serial_re first) then Some (Some first)
      else if is_some (match_ header_re first) then None
      else Some None in
    match serial_or_skip with
    | None => Ok []
    | Some ser =>
        if truthy ser then
          Ok [ {| serial := first;
                  case_text :=
                    find (fun cell => found case_ref_re cell || found typed_case_ref_re cell)
                         (slice 1 4 tds);
                  purpose := find (found purpose_word_re) tds;
                  court_info := find (found court_word_re) tds;
                  raw_cells := tds |} ]
        else Ok []
    end.

(** The rows the two loops visit, table by table. *)
Definition visited_rows (soup : node) : list (list str) :=
  flat_map (fun table => map cells_of (find_all [lit "tr"] table))
           (find_all [lit "table"] soup).

Definition extract_schedule_rows (rows : list (list str)) : res (list ScheduleRow) :=
  for_each row_entries rows.

Definition parse_cause_list_html (soup : node) : res (list ScheduleRow) :=
  extract_schedule_rows (visited_rows soup).

(** *** find_case_in_cause_list *)

Definition normalize (s : str) : str := lower (strip (sub ws_re (lit " ") s)).

Definition find_case_in_cause_list (entries : list ScheduleRow) (case_key : str)
    : option ScheduleRow :=
  let key_norm := normalize case_key in
  find (fun e =>
          let big_text := join (lit " ") (raw_cells e) in
          let big_text_norm := normalize big_text in
          contains key_norm big_text_norm)
       entries.

(** *** Dates *)

(** A naive [datetime], to the minute (seconds do not reach the date). *)
Record date : Type := { d_year : N; d_month : N; d_day : N }.
Record datetime : Type := { dt_date : date; dt_hour : N; dt_minute : N }.

Definition is_leap (y : N) : bool :=
  ((y mod 4 =? 0) && (negb (y mod 100 =? 0) || (y mod 400 =? 0)))%N.

Definition days_in_month (y m : N) : N :=
  (if m =? 2 then (if is_leap y then 29 else 28)
   else if (m =? 4) || (m =? 6) || (m =? 9) || (m =? 11) then 30
   else 31)%N.

(** [d + timedelta(days=1)]; past 9999-12-31 Python raises [OverflowError]. *)
Definition next_day (d : date) : res date :=
  if (d_day d <? days_in_month (d_year d) (d_month d))%N
  then Ok {| d_year := d_year d; d_month := d_month d; d_day := d_day d + 1 |}
  else if (d_month d <? 12)%N
  then Ok {| d_year := d_year d; d_month := d_month d + 1; d_day := 1 |}
  else if (d_year d <? 9999)%N
  then Ok {| d_year := d_year d + 1; d_month := 1; d_day := 1 |}
  else Raise OverflowError.

(** [d + timedelta(days=n)] for [n >= 0]. *)
Fixpoint add_days (n : nat) (d : date) : res date :=
  match n with
  | 0 => Ok d
  | S k => d' <- next_day d ;; add_days k d'
  end.

(** [datetime.utcnow() + timedelta(hours=5, minutes=30)], from the value the
    clock returned. *)
Definition today_ist (utcnow : datetime) : res datetime :=
  let total := (dt_hour utcnow * 60 + dt_minute utcnow + 330)%N in
  if (total <? 1440)%N
  then Ok {| dt_date := dt_date utcnow; dt_hour := total / 60; dt_minute := total mod 60 |}
  else
    d' <- next_day (dt_date utcnow) ;;
    Ok {| dt_date := d'; dt_hour := (total - 1440) / 60;
          dt_minute := (total - 1440) mod 60 |}.

Definition digit (n : N) : ascii := ascii_of_N (48 + n mod 10).
Definition pad2 (n : N) : str := [digit (n / 10); digit n].
Definition pad4 (n : N) : str :=
  [digit (n / 1000); digit (n / 100); digit (n / 10); digit n].

(** [d.strftime("%d-%m-%Y")], the year written with four digits. *)
Definition strftime_dmy (d : date) : str :=
  pad2 (d_day d) ++ lit "-" ++ pad2 (d_month d) ++ lit "-" ++ pad4 (d_year d).

Definition date_str_ist (utcnow : datetime) (days_from_today : nat) : res str :=
  now <- today_ist utcnow ;;
  d <- add_days days_from_today (dt_date now) ;;
  Ok (strftime_dmy d).

(** *** Decision helpers and step 3 of main *)

Definition is_date_in_hearings (hs : list Hearing) (target_ddmmyyyy : str) : bool :=
  let t := target_ddmmyyyy in
  existsb (fun h => eqb_str (h_date h) t) hs.

(** The command-line arguments step 3 reads. *)
Record Args : Type := {
  a_case_type : option str;
  a_case_number : option str;
  a_year : option str;
  a_today : bool;
  a_tomorrow : bool
}.

Definition text_of (o : option str) : str :=
  match o with Some s => s | None => [] end.

Definition case_key_of (args : Args) (case_overview : option CaseOverview) : option str :=
  if truthy (a_case_type args) && truthy (a_case_number args) && truthy (a_year args)
  then Some (text_of (a_case_type args) ++ lit " " ++ text_of (a_case_number args)
             ++ lit "/" ++ text_of (a_year args))
  else
    match case_overview with
    | Some ov => if truthy (case_number ov) then case_number ov else None
    | None => None
    end.

Definition details_of (matched : ScheduleRow) : Details :=
  {| d_serial := serial matched;
     d_court := court_info matched;
     d_case_text := case_text matched;
     d_purpose := purpose matched |}.

(** The search of the cause list: details and the two flags after it. *)
Definition schedule_step (entries : list ScheduleRow) (case_key : option str)
    (today tomorrow : bool) : option Details * option bool * option bool :=
  match entries, truthy case_key with
  | _ :: _, true =>
      match find_case_in_cause_list entries (text_of case_key) with
      | Some matched =>
          (Some (details_of matched),
           if today then Some true else None,
           if tomorrow then Some true else None)
      | None =>
          (None,
           if today then Some false else None,
           if tomorrow then Some false else None)
      end
  | _, _ => (None, None, None)
  end.

(** The fallback on the hearings for one flag. *)
Definition hearing_step (hs : list Hearing) (utcnow : datetime) (days : nat)
    (wanted : bool) (flag : option bool) : res (option bool) :=
  if wanted && negb (is_some flag)
  then t <- date_str_ist utcnow days ;; Ok (Some (is_date_in_hearings hs t))
  else Ok flag.

Definition resolve_listing (case_overview : option CaseOverview)
    (entries : list ScheduleRow) (case_key : option str) (today tomorrow : bool)
    (utcnow : datetime) : res ListingDecision :=
  let '(details, lt, lm) := schedule_step entries case_key today tomorrow in
  match case_overview with
  | Some ov =>
      if today || tomorrow then
        lt' <- hearing_step (hearings ov) utcnow 0 today lt ;;
        lm' <- hearing_step (hearings ov) utcnow 1 tomorrow lm ;;
        Ok {| listed_today := lt'; listed_tomorrow := lm'; listing_details := details |}
      else Ok {| listed_today := lt; listed_tomorrow := lm; listing_details := details |}
  | None => Ok {| listed_today := lt; listed_tomorrow := lm; listing_details := details |}
  end.

(** Step 3 of [main], from the arguments and what steps 1 and 2 produced. *)
Definition listing_of_run (args : Args) (case_overview : option CaseOverview)
    (entries : list ScheduleRow) (utcnow : datetime) : res ListingDecision :=
  resolve_listing case_overview entries (case_key_of args case_overview)
                  (a_today args) (a_tomorrow args) utcnow.

End Scraper.

Import Scraper.

(** ** The properties, in the words of the specification *)

Module Spec.

(** Whitespace-collapsed: every maximal run of whitespace becomes one space.
    [in_run] tells that the character before was whitespace. *)
Fixpoint collapse_from (in_run : bool) (s : str) : str :=
  match s with
  | [] => []
  | c :: t =>
      if isspace c
      then (if in_run then collapse_from true t else " "%char :: collapse_from true t)
      else c :: collapse_from false t
  end.

Definition collapse_ws (s : str) : str := collapse_from false s.

(** The length of the leading run of characters of a class. *)
Fixpoint run_length (p : ascii -> bool) (s : str) : nat :=
  match s with
  | c :: t => if p c then S (run_length p t) else 0
  | [] => 0
  end.

(** How many characters a greedy repeat takes first. *)
Definition first_take (p : ascii -> bool) (hi : option nat) (rest : str) : nat :=
  match hi with
  | Some h => Nat.min (run_length p rest) h
  | None => run_length p rest
  end.

(** A row qualifies for an identifier: its cells joined with single spaces,
    whitespace-collapsed and lower-cased, contain the identifier,
    whitespace-collapsed, lower-cased and trimmed. *)
Definition qualifies (identifier : str) (row : ScheduleRow) : bool :=
  contains (strip (lower (collapse_ws identifier)))
           (lower (collapse_ws (join (lit " ") (raw_cells row)))).

(** The first element of a list with a property: it has the property and
    nothing before it has. *)
Definition first_with {A} (p : A -> bool) (l : list A) (x : A) : Prop :=
  exists before after,
    l = before ++ x :: after /\ p x = true /\ Forall (fun y => p y = false) before.

(** A pure 1-4 digit text. *)
Definition is_serial (s : str) : bool :=
  (1 <=? length s) && (length s <=? 4) && forallb isdecimal s.

(** A row that is kept: at least two cells, the first a serial. *)
Definition is_data_row (tds : list str) : bool :=
  (2 <=? length tds) && is_serial (hd [] tds).

(** The entry of a data row: the first cell verbatim as the serial, the
    optional fields scanned from the cells, and all the cells. *)
Definition row_of (tds : list str) : ScheduleRow :=
  {| serial := hd [] tds;
     case_text :=
       find (fun cell => found case_ref_re cell || found typed_case_ref_re cell)
            (slice 1 4 tds);
     purpose := find (found purpose_word_re) tds;
     court_info := find (found court_word_re) tds;
     raw_cells := tds |}.


(** The fixed DD-MM-YYYY numeric pattern. *)
Definition is_ddmmyyyy (d : str) : bool :=
  match d with
  | [d1; d2; s1; m1; m2; s2; y1; y2; y3; y4] =>
      isdecimal d1 && isdecimal d2 && eqb_char "-" s1
      && isdecimal m1 && isdecimal m2 && eqb_char "-" s2
      && isdecimal y1 && isdecimal y2 && isdecimal y3 && isdecimal y4
  | _ => false
  end.

(** A DD-MM-YYYY substring starts at index [i]. *)
Definition date_at (text : str) (i : nat) : bool :=
  is_ddmmyyyy (slice i (i + 10) text).

(** Every index where a DD-MM-YYYY substring starts. *)
Definition occurrences (text : str) : list nat :=
  filter (date_at text) (seq 0 (length text)).

(** The window of a date that starts at [i]: 60 characters before it to 80
    after it. *)
Definition window_of (text : str) (i : nat) : str :=
  slice (i - 60) (Nat.min (i + 10 + 80) (length text)) text.

(** The entry recorded for a date that starts at [i]. *)
Definition entry_at (text : str) (i : nat) : Hearing :=
  {| h_date := slice i (i + 10) text;
     h_purpose := field purpose_re (window_of text i) |}.

(** The scan for dates, as offsets into the text: a date found at an offset
    hides the next nine. *)
Fixpoint scan_dates (rest : str) (skip : nat) : list nat :=
  match rest with
  | [] => []
  | _ :: t =>
      match skip with
      | S n => map S (scan_dates t n)
      | 0 =>
          if is_ddmmyyyy (firstn 10 rest)
          then 0 :: map S (scan_dates t 9)
          else map S (scan_dates t 0)
      end
  end.

(** One character further, and [n] characters further. *)
Definition step (c : cursor) : cursor :=
  match c_rest c with
  | a :: t => Cursor (S (c_pos c)) (Some a) t
  | [] => c
  end.

Fixpoint advance (c : cursor) (n : nat) : cursor :=
  match n with
  | 0 => c
  | S k => advance (step c) k
  end.

(** The position [i] of a text, as the matcher sees it. *)
Definition cursor_at (text : str) (i : nat) : cursor := advance (start_of text) i.

Definition within (hi : option nat) (n : nat) : Prop :=
  match hi with Some h => n <= h | None => True end.

(** What a pattern may consume from a position: [spans r c g n g'] says that
    [r] can take the next [n] characters at [c], turning the groups [g] into
    [g']. *)
Inductive spans : regex -> cursor -> caps -> nat -> caps -> Prop :=
| spans_eps c g : spans Eps c g 0 g
| spans_chr p c g a t :
    c_rest c = a :: t -> p a = true -> spans (Chr p) c g 1 g
| spans_cat r1 r2 c g n1 g1 n2 g2 :
    spans r1 c g n1 g1 -> spans r2 (advance c n1) g1 n2 g2 ->
    spans (Cat r1 r2) c g (n1 + n2) g2
| spans_alt_l r1 r2 c g n g' : spans r1 c g n g' -> spans (Alt r1 r2) c g n g'
| spans_alt_r r1 r2 c g n g' : spans r2 c g n g' -> spans (Alt r1 r2) c g n g'
| spans_rep p lo hi c g n :
    lo <= n -> n <= run_length p (c_rest c) -> within hi n ->
    spans (Rep p lo hi) c g n g
| spans_grp i r c g n g' :
    spans r c g n g' -> spans (Grp i r) c g n ((i, firstn n (c_rest c)) :: g')
| spans_wb c g : at_boundary c = true -> spans Wb c g 0 g.

(** The texts a pattern can take, groups and word boundaries aside. *)
Inductive derives : regex -> str -> Prop :=
| derives_eps : derives Eps []
| derives_chr p a : p a = true -> derives (Chr p) [a]
| derives_cat r1 r2 w1 w2 :
    derives r1 w1 -> derives r2 w2 -> derives (Cat r1 r2) (w1 ++ w2)
| derives_alt_l r1 r2 w : derives r1 w -> derives (Alt r1 r2) w
| derives_alt_r r1 r2 w : derives r2 w -> derives (Alt r1 r2) w
| derives_rep p lo hi w :
    lo <= length w -> within hi (length w) -> forallb p w = true ->
    derives (Rep p lo hi) w
| derives_grp i r w : derives r w -> derives (Grp i r) w
| derives_wb : derives Wb [].

(** The pattern has a match that starts at index [i]. *)
Definition matches_at (r : regex) (text : str) (i : nat) : bool :=
  is_some (match_at r (cursor_at text i)).

(** Equal up to case. *)
Definition same_i (s : string) (w : str) : Prop := lower w = lower (lit s).

(** A "CNR No" label: the two words in any case, optional whitespace between
    them, an optional period, then an optional colon or dash inside optional
    whitespace. *)
Definition cnr_label (lab : str) : Prop :=
  exists w0 w1 dot w2 sep w3 w4,
    lab = w0 ++ w1 ++ w2 ++ dot ++ w3 ++ sep ++ w4
    /\ same_i "CNR" w0 /\ forallb isspace w1 = true /\ same_i "No" w2
    /\ (dot = [] \/ dot = lit ".")
    /\ forallb isspace w3 = true
    /\ (sep = [] \/ sep = lit ":" \/ sep = lit "-")
    /\ forallb isspace w4 = true.

Definition alnum (c : ascii) : bool := isalpha_ascii c || isdecimal c.







(** A text reads as a word, whatever the case of its letters: the two are
    equal once every character is put in upper case. *)
Definition reads_as (word : string) (w : str) : Prop :=
  map upper_char w = map upper_char (lit word).

(** A "Purpose" or "Stage" label: the word in any case, then an optional colon
    or dash inside optional whitespace. *)
Definition purpose_label (lab : str) : Prop :=
  exists w0 w3 sep w4,
    lab = w0 ++ w3 ++ sep ++ w4
    /\ (reads_as "Purpose" w0 \/ reads_as "Stage" w0)
    /\ forallb isspace w3 = true
    /\ (sep = [] \/ sep = lit ":" \/ sep = lit "-")
    /\ forallb isspace w4 = true.

(** A character of alphanumeric or punctuation text: a word character (a
    letter, a digit or an underscore), a space or one of [,./()-]. *)
Definition purpose_mark (c : ascii) : bool := isword c || one_of " ,./()-" c.

(** The same with the letters and digits of ASCII only. *)
Definition purpose_text_char (c : ascii) : bool := alnum c || one_of " ,./()_-" c.

(** The window has a label followed by [body], 3 to 60 characters of a
    class. *)
Definition labelled_purpose (cls : ascii -> bool) (window body : str) : Prop :=
  exists pre lab post,
    window = pre ++ lab ++ body ++ post /\ purpose_label lab
    /\ 3 <= length body <= 60 /\ forallb cls body = true.

(** The purpose sought in a window: a purpose that is found is the trimmed
    text of 3 to 60 characters of alphanumeric or punctuation text after a
    label, and none is found only when no label of the window is followed by
    three such characters of ASCII. *)
Definition purpose_sought_in (window : str) (o : option str) : Prop :=
  match o with
  | Some p => exists body, labelled_purpose purpose_mark window body /\ p = strip body
  | None => forall body, ~ labelled_purpose purpose_text_char window body
  end.

(** The two flags as the search of the cause list leaves them. *)
Definition today_after_schedule (entries : list ScheduleRow) (key : option str)
    (today tomorrow : bool) : option bool :=
  snd (fst (schedule_step entries key today tomorrow)).

Definition tomorrow_after_schedule (entries : list ScheduleRow) (key : option str)
    (today tomorrow : bool) : option bool :=
  snd (schedule_step entries key today tomorrow).

(** Some hearing has the date [t]. *)
Definition heard_on (ov : CaseOverview) (t : str) : Prop :=
  exists h, In h (hearings ov) /\ h_date h = t.

(** Neither flag nor details. *)
Definition undecided : ListingDecision :=
  {| listed_today := None; listed_tomorrow := None; listing_details := None |}.

(** The clock is before the last year of the calendar, so that the day after
    tomorrow still exists. *)
Definition clock_ok (utcnow : datetime) : Prop := (d_year (dt_date utcnow) < 9999)%N.

End Spec.

Import Spec.

(** ** The utilities and the rest of [main] *)

Module Util.

(** [s.lstrip(chars)] and [s.strip(chars)]: characters of [chars] removed at
    the ends. *)
Fixpoint lstrip_of (chars : str) (s : str) : str :=
  match s with
  | c :: t => if existsb (eqb_char c) chars then lstrip_of chars t else s
  | [] => []
  end.

Definition rstrip_of (chars : str) (s : str) : str := rev (lstrip_of chars (rev s)).

Definition strip_of (chars : str) (s : str) : str := rstrip_of chars (lstrip_of chars s).

(** [[\w\-\.]]: what a file name keeps. *)
Definition filename_char (c : ascii) : bool := isword c || one_of "-." c.

(** [[^\w\-\.]+] *)
Definition unsafe_re : regex := plus (fun c => negb (filename_char c)).

Definition sanitize_filename (name : str) : str :=
  strip_of (lit "_") (sub unsafe_re (lit "_") name).

End Util.

Import Util.

Module Main.

(** The parsed command line, as far as the run depends on it. *)
Record Cli : Type := {
  cli_cnr : option str;
  cli_args : Args;
  cli_causelist : bool
}.

(** The snapshot of the parsed table (the path of a downloaded PDF aside). *)
Record CauseList : Type := { cl_count : nat; cl_entries : list ScheduleRow }.

(** The fields of [RunResult] that steps 1 to 3 compute; [inputs],
    [downloaded_files] and [task_run_at] belong to the command line, the
    downloads and the clock. *)
Record RunResult : Type := {
  rr_case_overview : option CaseOverview;
  rr_is_listed_today : option bool;
  rr_is_listed_tomorrow : option bool;
  rr_listing_details : option Details;
  rr_cause_list : option CauseList
}.

(** How [main] ends: [parser.error], the [except] branch (return 1), or a
    result (return 0). *)
Inductive outcome : Type :=
| UsageError
| Failed (e : exn)
| Finished (r : RunResult).

(** Steps 1 to 3 of [main] and the snapshot, from the parsed command line and
    the two pages the browser shows once the user has filled the forms. A page
    is read only when its flow runs. *)
Definition main_core (cli : Cli) (status_page causelist_page : node)
    (utcnow : datetime) : outcome :=
  let args := cli_args cli in
  if truthy (a_case_type args)
     && (negb (truthy (a_case_number args)) || negb (truthy (a_year args)))
  then UsageError
  else
    let case_overview :=
      if truthy (cli_cnr cli) then Some (parse_case_status_html status_page) else None in
    let fetched :=
      if cli_causelist cli || a_today args || a_tomorrow args
      then parse_cause_list_html causelist_page
      else Ok [] in
    match fetched with
    | Raise e => Failed e
    | Ok entries =>
        match listing_of_run args case_overview entries utcnow with
        | Raise e => Failed e
        | Ok decision =>
            Finished
              {| rr_case_overview := case_overview;
                 rr_is_listed_today := listed_today decision;
                 rr_is_listed_tomorrow := listed_tomorrow decision;
                 rr_listing_details := listing_details decision;
                 rr_cause_list :=
                   match entries with
                   | [] => None
                   | _ :: _ => Some {| cl_count := length entries; cl_entries := entries |}
                   end |}
        end
    end.

(** Truth value of an optional boolean. *)
Definition is_true (o : option bool) : bool :=
  match o with Some true => true | _ => false end.

(** What the console output says about the listing. *)
Inductive console : Type :=
| SerialAndCourt (serial : str) (court : option str)
| ListedByDate
| NotFound.

Definition console_of (result : RunResult) : console :=
  match rr_listing_details result with
  | Some details => SerialAndCourt (d_serial details) (d_court details)
  | None =>
      if is_true (rr_is_listed_today result) || is_true (rr_is_listed_tomorrow result)
      then ListedByDate
      else NotFound
  end.

End Main.

Import Main.

(** ** Further notions for the properties of the code *)

Module Props.

(** Every maximal run of characters of a class replaced by one text. *)
Fixpoint squeeze_from (p : ascii -> bool) (repl : str) (in_run : bool) (s : str) : str :=
  match s with
  | [] => []
  | c :: t =>
      if p c
      then (if in_run then squeeze_from p repl true t
            else repl ++ squeeze_from p repl true t)
      else c :: squeeze_from p repl false t
  end.

Definition underscore : ascii := "_"%char.

Definition is_underscore (c : ascii) : bool := eqb_char c underscore.

(** A name that [sanitize_filename] leaves alone. *)
Definition clean_name (s : str) : Prop :=
  forallb filename_char s = true
  /\ hd_error s <> Some underscore /\ hd_error (rev s) <> Some underscore.

(** A date of the calendar, and a clock value. *)
Definition valid_date (d : date) : Prop :=
  (1 <= d_year d <= 9999 /\ 1 <= d_month d <= 12
   /\ 1 <= d_day d <= days_in_month (d_year d) (d_month d))%N.

Definition valid_clock (t : datetime) : Prop :=
  valid_date (dt_date t) /\ (dt_hour t < 24)%N /\ (dt_minute t < 60)%N.

Definition date_lt (a b : date) : Prop :=
  (d_year a < d_year b
   \/ (d_year a = d_year b /\ d_month a < d_month b)
   \/ (d_year a = d_year b /\ d_month a = d_month b /\ d_day a < d_day b))%N.

Definition last_date : date := {| d_year := 9999; d_month := 12; d_day := 31 |}.

(** Minutes since midnight. *)
Definition minute_of_day (t : datetime) : N := (dt_hour t * 60 + dt_minute t)%N.

(** An optional cell is one of the given cells. *)
Definition among (o : option str) (cells : list str) : Prop :=
  match o with
  | Some c => In c cells
  | None => True
  end.

(** The shape of an extracted case number: an optional prefix of letters,
    periods, slashes, dashes and whitespace, digits, a slash, four digits. *)
Definition case_number_shape (s : str) : Prop :=
  exists pre num year,
    s = pre ++ num ++ lit "/" ++ year
    /\ forallb (fun c => isalpha_ascii c || one_of "./-" c || isspace c) pre = true
    /\ num <> [] /\ forallb isdecimal num = true
    /\ length year = 4 /\ forallb isdecimal year = true.

(** No whitespace at either end. *)
Definition trimmed (s : str) : Prop :=
  (forall c t, s = c :: t -> isspace c = false)
  /\ (forall t c, s = t ++ [c] -> isspace c = false).

(** A code point below 128. *)
Definition is_ascii (c : ascii) : bool := code c <? 128.

(** The day checked for [listed_today] or [listed_tomorrow], when it exists. *)
Definition ist_day (utcnow : datetime) (days : nat) (t : str) : Prop :=
  date_str_ist utcnow days = Ok t.

(** A pattern whose every match starts with a character that is no digit. *)
Definition letter_first (r : regex) : Prop :=
  forall w, derives r w -> exists a t, w = a :: t /\ isdecimal a = false.

(** Whether a text ends in whitespace, [b] standing for the empty text. *)
Fixpoint state_after (b : bool) (u : str) : bool :=
  match u with
  | [] => b
  | c :: t => state_after (isspace c) t
  end.

(** Whitespace only as single spaces, and none at the start when
    [after_space] is set. *)
Fixpoint tidy (after_space : bool) (s : str) : bool :=
  match s with
  | [] => true
  | c :: t =>
      if isspace c
      then eqb_char c " "%char && negb after_space && tidy true t
      else tidy false t
  end.

End Props.

Import Props.

(** ** Facts about the string operations *)

Module PyFacts.

Lemma eqb_char_eq (a b : ascii) : eqb_char a b = true <-> a = b.
Proof. unfold eqb_char. apply Ascii.eqb_eq. Qed.

Lemma eqb_char_refl (a : ascii) : eqb_char a a = true.
Proof. apply eqb_char_eq. reflexivity. Qed.

Lemma eqb_str_eq (a b : str) : eqb_str a b = true <-> a = b.
Proof.
  revert b. induction a as [|x a IH]; intros [|y b]; simpl; split; intro H;
    try reflexivity; try discriminate.
  - apply andb_true_iff in H as [H1 H2].
    apply eqb_char_eq in H1. apply IH in H2. now subst.
  - injection H as -> ->. rewrite eqb_char_refl. simpl. now apply IH.
Qed.

Lemma startswith_app (p t : str) : startswith p (p ++ t) = true.
Proof.
  induction p as [|x p IH]; simpl; [reflexivity|].
  now rewrite eqb_char_refl.
Qed.

Lemma startswith_inv (p s : str) : startswith p s = true -> exists t, s = p ++ t.
Proof.
  revert s. induction p as [|x p IH]; intros s H.
  - now exists s.
  - destruct s as [|y s]; simpl in H; [discriminate|].
    apply andb_true_iff in H as [H1 H2].
    apply eqb_char_eq in H1. subst y.
    destruct (IH _ H2) as [t ->]. now exists t.
Qed.

Lemma contains_nil (h : str) : contains [] h = true.
Proof. destruct h; reflexivity. Qed.

Lemma contains_start (n s : str) : startswith n s = true -> contains n s = true.
Proof. intro H. destruct s; simpl; rewrite H; reflexivity. Qed.

Lemma contains_intro (a n b : str) : contains n (a ++ n ++ b) = true.
Proof.
  induction a as [|x a IH].
  - cbn [app]. apply contains_start, startswith_app.
  - simpl. rewrite IH. apply orb_true_r.
Qed.

Lemma contains_inv (n h : str) :
  contains n h = true -> exists a b, h = a ++ n ++ b.
Proof.
  induction h as [|y h IH]; simpl; intro H.
  - rewrite orb_false_r in H. apply startswith_inv in H as [t Ht].
    exists [], t. exact Ht.
  - apply orb_true_iff in H as [H | H].
    + apply startswith_inv in H as [t Ht]. exists [], t. exact Ht.
    + destruct (IH H) as (a & b & ->). now exists (y :: a), b.
Qed.

(** [lstrip] removes a prefix of whitespace and stops at a character that is
    not. *)
Lemma lstrip_suffix (s : str) :
  exists w, s = w ++ lstrip s /\ forallb isspace w = true.
Proof.
  induction s as [|c s (w & E & W)]; simpl.
  - now exists [].
  - destruct (isspace c) eqn:C.
    + exists (c :: w). simpl. rewrite C, W. split; [now f_equal | reflexivity].
    + now exists [].
Qed.

Lemma lstrip_head (s : str) (c : ascii) (t : str) :
  lstrip s = c :: t -> isspace c = false.
Proof.
  induction s as [|x s IH]; simpl; [discriminate|].
  destruct (isspace x) eqn:X; [exact IH|].
  intros [= -> _]. exact X.
Qed.

Lemma lstrip_app_stop (a : str) (c : ascii) (t : str) :
  isspace c = false -> lstrip (a ++ c :: t) = lstrip a ++ c :: t.
Proof.
  intro C. induction a as [|x a IH]; simpl.
  - now rewrite C.
  - destruct (isspace x); [exact IH | reflexivity].
Qed.

Lemma lstrip_spaces (w : str) : forallb isspace w = true -> lstrip w = [].
Proof.
  induction w as [|c w IH]; simpl; [reflexivity|].
  intro H. apply andb_true_iff in H as [C W]. rewrite C. auto.
Qed.

Lemma rstrip_prefix (s : str) :
  exists w, s = rstrip s ++ w /\ forallb isspace w = true.
Proof.
  unfold rstrip. destruct (lstrip_suffix (rev s)) as (w & E & W).
  exists (rev w). split.
  - rewrite <- rev_app_distr, <- E. symmetry. apply rev_involutive.
  - rewrite forallb_forall in *. intros x Hx. apply W. now apply in_rev.
Qed.

Lemma rstrip_app_stop (a : str) (c : ascii) (t : str) :
  isspace c = false -> rstrip (a ++ c :: t) = a ++ c :: rstrip t.
Proof.
  intro C. unfold rstrip. rewrite rev_app_distr. simpl.
  rewrite <- app_assoc. simpl.
  rewrite lstrip_app_stop by exact C.
  rewrite rev_app_distr. simpl. rewrite rev_involutive.
  now rewrite <- app_assoc.
Qed.

(** A stripped text that is not empty starts and ends with a character that is
    not whitespace. *)
Lemma strip_head (s : str) (c : ascii) (t : str) :
  strip s = c :: t -> isspace c = false.
Proof.
  unfold strip. intro E.
  destruct (rstrip_prefix (lstrip s)) as (w & Ew & _).
  rewrite E in Ew. simpl in Ew. apply (lstrip_head s c _ Ew).
Qed.

Lemma strip_last (s : str) (t : str) (c : ascii) :
  strip s = t ++ [c] -> isspace c = false.
Proof.
  unfold strip, rstrip. intro E.
  apply (f_equal (@rev ascii)) in E. rewrite rev_involutive, rev_app_distr in E.
  simpl in E. apply (lstrip_head _ _ _ E).
Qed.

(** [lower] keeps whitespace whitespace and the rest not. *)
Lemma isspace_lower_char (c : ascii) : isspace (lower_char c) = isspace c.
Proof.
  destruct c as [[] [] [] [] [] [] [] []]; reflexivity.
Qed.

Lemma lstrip_lower (s : str) : lstrip (lower s) = lower (lstrip s).
Proof.
  induction s as [|c s IH]; simpl; [reflexivity|].
  rewrite isspace_lower_char. destruct (isspace c); [exact IH | reflexivity].
Qed.

Lemma rstrip_lower (s : str) : rstrip (lower s) = lower (rstrip s).
Proof.
  unfold rstrip.
  change (rev (lower s)) with (rev (map lower_char s)).
  rewrite <- map_rev.
  change (map lower_char (rev s)) with (lower (rev s)).
  rewrite lstrip_lower. unfold lower. now rewrite map_rev.
Qed.

Lemma strip_lower (s : str) : strip (lower s) = lower (strip s).
Proof. unfold strip. now rewrite lstrip_lower, rstrip_lower. Qed.

(** Stripping the text searched does not change whether a stripped key occurs
    in it. *)
Lemma contains_strip (k t : str) :
  contains (strip k) (strip t) = contains (strip k) t.
Proof.
  destruct (contains (strip k) t) eqn:E.
  - apply contains_inv in E as (a & b & E).
    destruct (strip k) as [|c K] eqn:EK; [apply contains_nil|].
    assert (Hc : isspace c = false) by (apply (strip_head k c K EK)).
    destruct (@exists_last _ (c :: K)) as (K' & z & EK'); [discriminate|].
    assert (Hz : isspace z = false).
    { apply (strip_last k K' z). now rewrite EK. }
    subst t. unfold strip. cbn [app].
    rewrite lstrip_app_stop by exact Hc.
    change (c :: K ++ b) with ((c :: K) ++ b). rewrite EK'.
    replace (lstrip a ++ (K' ++ [z]) ++ b) with ((lstrip a ++ K') ++ z :: b)
      by (rewrite <- !app_assoc; reflexivity).
    rewrite rstrip_app_stop by exact Hz.
    replace ((lstrip a ++ K') ++ z :: rstrip b)
      with (lstrip a ++ (K' ++ [z]) ++ rstrip b)
      by (rewrite <- !app_assoc; reflexivity).
    apply contains_intro.
  - destruct (contains (strip k) (strip t)) eqn:E'; [|reflexivity].
    apply contains_inv in E' as (a & b & E').
    destruct (lstrip_suffix t) as (w1 & E1 & _).
    destruct (rstrip_prefix (lstrip t)) as (w2 & E2 & _).
    fold (strip t) in E2. rewrite E' in E2. rewrite E2 in E1.
    rewrite E1 in E.
    replace (w1 ++ (a ++ strip k ++ b) ++ w2)
      with ((w1 ++ a) ++ strip k ++ (b ++ w2)) in E
      by (rewrite <- !app_assoc; reflexivity).
    now rewrite contains_intro in E.
Qed.

Lemma find_first {A} (p : A -> bool) (l : list A) :
  match find p l with
  | Some x => first_with p l x
  | None => Forall (fun y => p y = false) l
  end.
Proof.
  induction l as [|a l IH]; simpl.
  - constructor.
  - destruct (p a) eqn:Pa.
    + exists [], l. repeat split; [exact Pa | constructor].
    + destruct (find p l) as [x|].
      * destruct IH as (b & c & -> & Px & Hb).
        exists (a :: b), c. repeat split; [exact Px | now constructor].
      * now constructor.
Qed.

Lemma find_ext {A} (p q : A -> bool) (l : list A) :
  (forall x, p x = q x) -> find p l = find q l.
Proof.
  intro H. induction l as [|a l IH]; simpl; [reflexivity|].
  rewrite H, IH. reflexivity.
Qed.

End PyFacts.

(** ** Facts about the matcher *)

Module ReFacts.

Lemma run_length_le (p : ascii -> bool) (s : str) : run_length p s <= length s.
Proof.
  induction s as [|c s IH]; simpl; [lia|]. destruct (p c); simpl; lia.
Qed.

Lemma step_cons (c : cursor) (a : ascii) (t : str) :
  c_rest c = a :: t -> step c = Cursor (S (c_pos c)) (Some a) t.
Proof. intro E. unfold step. now rewrite E. Qed.

Lemma advance_add (c : cursor) (n m : nat) :
  advance c (n + m) = advance (advance c n) m.
Proof. revert c. induction n as [|n IH]; intro c; simpl; [reflexivity | apply IH]. Qed.

Lemma rest_advance (c : cursor) (n : nat) : c_rest (advance c n) = skipn n (c_rest c).
Proof.
  revert c. induction n as [|n IH]; intro c; simpl; [reflexivity|].
  rewrite IH. unfold step. destruct (c_rest c) as [|a t] eqn:E; simpl.
  - rewrite E. now destruct n.
  - reflexivity.
Qed.

Lemma pos_advance (c : cursor) (n : nat) :
  n <= length (c_rest c) -> c_pos (advance c n) = c_pos c + n.
Proof.
  revert c. induction n as [|n IH]; intros c H; simpl; [lia|].
  destruct (c_rest c) as [|a t] eqn:E; simpl in H; [lia|].
  rewrite (step_cons c a t E), IH; simpl; lia.
Qed.

Lemma spans_length r c g n g' : spans r c g n g' -> n <= length (c_rest c).
Proof.
  induction 1; try lia.
  - rewrite H. simpl. lia.
  - rewrite rest_advance, length_skipn in IHspans2. lia.
  - pose proof (run_length_le p (c_rest c)). lia.
Qed.

Section Soundness.

Variable R : Type.

(** What a successful repeat did: it took some allowed number of characters of
    the class and the rest of the pattern went on from there. *)
Lemma rep_sound (p : ascii -> bool) (k : cursor -> option R) (x : R) :
  forall rest lo hi pos prev,
    rep p lo hi pos prev rest k = Some x ->
    exists n, lo <= n /\ n <= run_length p rest /\ within hi n
              /\ k (advance (Cursor pos prev rest) n) = Some x.
Proof.
  assert (Stop : forall lo hi pos prev rest,
             (if lo =? 0 then k (Cursor pos prev rest) else None) = Some x ->
             exists n, lo <= n /\ n <= run_length p rest /\ within hi n
                       /\ k (advance (Cursor pos prev rest) n) = Some x).
  { intros lo hi pos prev rest H. destruct (Nat.eqb_spec lo 0); [|discriminate].
    exists 0. repeat split; try lia; [destruct hi; simpl; lia | exact H]. }
  induction rest as [|a t IH]; intros lo hi pos prev H; simpl in H.
  - now apply Stop.
  - destruct (p a && hi_allows hi) eqn:E; [|now apply Stop].
    apply andb_true_iff in E as [Pa Hi].
    destruct (rep p (pred lo) (option_map pred hi) (S pos) (Some a) t k) as [y|] eqn:Rec;
      simpl in H.
    + injection H as ->.
      destruct (IH _ _ _ _ Rec) as (n & Hlo & Hrun & Hhi & Hk).
      exists (S n). simpl. rewrite Pa. repeat split; try lia; [|exact Hk].
      destruct hi as [[|h]|]; simpl in *; try discriminate; lia.
    + now apply Stop.
Qed.

Create HintDb re.
#[local] Hint Constructors spans derives : re.

(** Soundness of the matcher: a result comes from a span of the pattern and
    the continuation run at its end. *)
Lemma exec_sound (r : regex) :
  forall c g (k : cursor -> caps -> option R) x,
    exec r c g k = Some x ->
    exists n g', spans r c g n g' /\ k (advance c n) g' = Some x.
Proof.
  induction r as [|p|r1 IH1 r2 IH2|r1 IH1 r2 IH2|p lo hi|i r IH|];
    intros c g k x H; simpl in H.
  - exists 0, g. auto with re.
  - destruct (c_rest c) as [|a t] eqn:E; [discriminate|].
    destruct (p a) eqn:Pa; [|discriminate].
    exists 1, g. split; [eauto with re|].
    simpl. now rewrite (step_cons c a t E).
  - apply IH1 in H as (n1 & g1 & S1 & H).
    apply IH2 in H as (n2 & g2 & S2 & H).
    exists (n1 + n2), g2. split; [now apply spans_cat with g1|].
    now rewrite advance_add.
  - destruct (exec r1 c g k) as [y|] eqn:E1; simpl in H.
    + injection H as ->. apply IH1 in E1 as (n & g' & S1 & H).
      exists n, g'. auto with re.
    + apply IH2 in H as (n & g' & S2 & H).
      exists n, g'. auto with re.
  - apply rep_sound in H as (n & Hlo & Hrun & Hhi & H).
    exists n, g. split; [now constructor|]. now destruct c.
  - apply IH in H as (n & g' & S1 & H).
    exists n, ((i, firstn n (c_rest c)) :: g'). split; [now constructor|].
    rewrite pos_advance in H by exact (spans_length _ _ _ _ _ S1).
    now replace (c_pos c + n - c_pos c) with n in H by lia.
  - destruct (at_boundary c) eqn:B; [|discriminate].
    exists 0, g. split; [now constructor | exact H].
Qed.

End Soundness.

Lemma match_at_sound (r : regex) (c : cursor) (m : rmatch) :
  match_at r c = Some m ->
  exists n g, spans r c [] n g /\ m = Match (c_pos c) (c_pos c + n) g.
Proof.
  unfold match_at. intro H. apply exec_sound in H as (n & g & S1 & H).
  exists n, g. split; [exact S1|].
  rewrite pos_advance in H by exact (spans_length _ _ _ _ _ S1). now injection H.
Qed.

(** [search] returns the match at the first position that has one. *)
Lemma search_from_sound (r : regex) (m : rmatch) :
  forall rest pos prev,
    search_from r pos prev rest = Some m ->
    exists i, i <= length rest
              /\ match_at r (advance (Cursor pos prev rest) i) = Some m
              /\ forall j, j < i -> match_at r (advance (Cursor pos prev rest) j) = None.
Proof.
  induction rest as [|a t IH]; intros pos prev H; simpl in H.
  - destruct (match_at r (Cursor pos prev [])) eqn:E; [|discriminate].
    exists 0. simpl. repeat split; [lia | congruence | intros; lia].
  - destruct (match_at r (Cursor pos prev (a :: t))) eqn:E.
    + exists 0. simpl. repeat split; [lia | congruence | intros; lia].
    + apply IH in H as (i & Hi & Hm & Hj).
      exists (S i). simpl. repeat split; [lia | exact Hm |].
      intros [|j] Hlt; [exact E | apply Hj; lia].
Qed.

Lemma search_from_found (r : regex) (m : rmatch) :
  forall i rest pos prev,
    match_at r (advance (Cursor pos prev rest) i) = Some m ->
    i <= length rest ->
    (forall j, j < i -> match_at r (advance (Cursor pos prev rest) j) = None) ->
    search_from r pos prev rest = Some m.
Proof.
  induction i as [|i IH]; intros rest pos prev Hm Hi Hj.
  - simpl in Hm. destruct rest; simpl; now rewrite Hm.
  - destruct rest as [|a t]; simpl in Hi; [lia|].
    simpl. pose proof (Hj 0 ltac:(lia)) as H0. simpl in H0. rewrite H0.
    apply IH; [exact Hm | lia |].
    intros j Hlt. apply (Hj (S j)). lia.
Qed.

Lemma search_from_none (r : regex) :
  forall rest pos prev,
    search_from r pos prev rest = None ->
    forall i, i <= length rest -> match_at r (advance (Cursor pos prev rest) i) = None.
Proof.
  induction rest as [|a t IH]; intros pos prev H i Hi; simpl in H.
  - assert (i = 0) by (simpl in Hi; lia). subst i. simpl.
    now destruct (match_at r (Cursor pos prev [])).
  - destruct (match_at r (Cursor pos prev (a :: t))) eqn:E; [discriminate|].
    destruct i as [|i]; [exact E|].
    simpl. apply IH; [exact H | simpl in Hi; lia].
Qed.

End ReFacts.

(** ** The case matcher *)

Module MatcherFacts.

Import PyFacts ReFacts.

(** A greedy unbounded repeat followed by nothing that can fail takes the whole
    run. *)
Lemma rep_greedy (R : Type) (p : ascii -> bool) (f : cursor -> R) :
  forall rest lo pos prev,
    rep p lo None pos prev rest (fun c' => Some (f c'))
    = if lo <=? run_length p rest
      then Some (f (advance (Cursor pos prev rest) (run_length p rest)))
      else None.
Proof.
  induction rest as [|a t IH]; intros lo pos prev; cbn [rep run_length].
  - destruct lo; reflexivity.
  - destruct (p a) eqn:Pa; cbn [andb hi_allows option_map].
    + rewrite IH.
      change (advance (Cursor pos prev (a :: t)) (S (run_length p t)))
        with (advance (Cursor (S pos) (Some a) t) (run_length p t)).
      destruct (Nat.leb_spec (pred lo) (run_length p t));
        destruct (Nat.leb_spec lo (S (run_length p t)));
        cbn [or_else]; try reflexivity; try lia.
      destruct lo; [lia | reflexivity].
    + destruct lo; reflexivity.
Qed.

Lemma match_at_ws (pos : nat) (prev : option ascii) (rest : str) :
  match_at ws_re (Cursor pos prev rest)
  = if 1 <=? run_length isspace rest
    then Some (Match pos (pos + run_length isspace rest) [])
    else None.
Proof.
  unfold match_at, ws_re, plus. cbn [exec c_pos c_prev c_rest].
  rewrite (rep_greedy _ isspace (fun c' => Match pos (c_pos c') [])).
  destruct (1 <=? run_length isspace rest); [|reflexivity].
  rewrite pos_advance; [reflexivity | apply run_length_le].
Qed.

Lemma collapse_after_run (t : str) :
  run_length isspace t = 0 -> collapse_from true t = collapse_from false t.
Proof.
  destruct t as [|c t]; simpl; [reflexivity|].
  destruct (isspace c); [discriminate | reflexivity].
Qed.

(** [re.sub(r"\s+", " ", s)] collapses the whitespace of [s]. *)
Lemma sub_ws_from :
  forall rest pos prev skip,
    skip = 0 \/ skip = run_length isspace rest ->
    sub_from ws_re (lit " ") pos prev rest skip
    = collapse_from (negb (skip =? 0)) rest.
Proof.
  induction rest as [|a t IH]; intros pos prev skip Hs; [reflexivity|].
  assert (Next : forall pos' prev',
             sub_from ws_re (lit " ") pos' prev' t (run_length isspace t)
             = collapse_from true t).
  { intros pos' prev'. rewrite IH by now right.
    destruct (run_length isspace t) eqn:E; simpl; [|reflexivity].
    symmetry. now apply collapse_after_run. }
  destruct skip as [|n].
  - cbn [sub_from]. rewrite match_at_ws. simpl.
    destruct (isspace a) eqn:A; simpl.
    + replace (pos + S (run_length isspace t) - pos - 1) with (run_length isspace t) by lia.
      now rewrite Next.
    + rewrite IH by now left. reflexivity.
  - destruct Hs as [Hs | Hs]; [discriminate|].
    simpl in Hs. destruct (isspace a) eqn:A; [|discriminate].
    injection Hs as ->. cbn [sub_from]. simpl. rewrite A. apply Next.
Qed.

Lemma sub_ws (s : str) : sub ws_re (lit " ") s = collapse_ws s.
Proof. unfold sub, collapse_ws. now rewrite sub_ws_from by now left. Qed.

Lemma normalize_spec (s : str) : normalize s = strip (lower (collapse_ws s)).
Proof. unfold normalize. now rewrite sub_ws, strip_lower. Qed.

(** The test of the loop is the test of the specification. *)
Lemma key_test_qualifies (identifier : str) (row : ScheduleRow) :
  contains (normalize identifier) (normalize (join (lit " ") (raw_cells row)))
  = qualifies identifier row.
Proof.
  unfold qualifies. rewrite !normalize_spec. apply contains_strip.
Qed.

Lemma collapse_spaces (s : str) (b : bool) :
  forallb isspace s = true -> forallb isspace (collapse_from b s) = true.
Proof.
  revert b. induction s as [|c s IH]; intros b H; simpl; [reflexivity|].
  simpl in H. apply andb_true_iff in H as [C S]. rewrite C.
  destruct b; simpl; auto.
Qed.

Lemma normalize_blank (s : str) : forallb isspace s = true -> normalize s = [].
Proof.
  intro H. rewrite normalize_spec.
  assert (L : lstrip (lower (collapse_ws s)) = []).
  { rewrite lstrip_lower. rewrite lstrip_spaces; [reflexivity|].
    now apply collapse_spaces. }
  unfold strip. now rewrite L.
Qed.

(** C1. [find_case_in_cause_list] returns the first row, in input order, whose
    cells joined with single spaces, whitespace-collapsed and lower-cased
    contain the identifier (whitespace-collapsed, lower-cased, trimmed), and
    nothing when no row qualifies. A row with cells "12", "OS 45/2023",
    "Evidence" is returned for "OS 45/2023" and not for "OS 999/2023". *)
Theorem find_case_returns_first_qualifying_row :
  (forall rows identifier,
      match find_case_in_cause_list rows identifier with
      | Some row => first_with (qualifies identifier) rows row
      | None => Forall (fun r => qualifies identifier r = false) rows
      end)
  /\ (forall ser ct pu co,
        let row := {| serial := ser; case_text := ct; purpose := pu; court_info := co;
                      raw_cells := [lit "12"; lit "OS 45/2023"; lit "Evidence"] |} in
        find_case_in_cause_list [row] (lit "OS 45/2023") = Some row
        /\ find_case_in_cause_list [row] (lit "OS 999/2023") = None).
Proof.
  split.
  - intros rows identifier. unfold find_case_in_cause_list.
    rewrite (find_ext _ (qualifies identifier))
      by (intro r; apply key_test_qualifies).
    apply find_first.
  - intros ser ct pu co row. unfold find_case_in_cause_list.
    cbn [find raw_cells row]. split.
    + replace (contains _ _) with true by (vm_compute; reflexivity). reflexivity.
    + replace (contains _ _) with false by (vm_compute; reflexivity). reflexivity.
Qed.

(** C10. For an identifier that is empty or all whitespace, the matcher
    returns the first row of a sequence that has one. *)
Theorem blank_identifier_matches_first_row :
  forall row rows identifier,
    forallb isspace identifier = true ->
    find_case_in_cause_list (row :: rows) identifier = Some row.
Proof.
  intros row rows identifier H. unfold find_case_in_cause_list.
  rewrite (normalize_blank identifier H). simpl. now rewrite contains_nil.
Qed.

Lemma blank_identifier_matches_first_row_witness :
  let row := {| serial := lit "12"; case_text := Some (lit "OS 45/2023");
                purpose := None; court_info := None;
                raw_cells := [lit "12"; lit "OS 45/2023"; lit "Evidence"] |} in
  forallb isspace (lit "  ") = true
  /\ find_case_in_cause_list [row] (lit "  ") = Some row.
Proof.
  intro row. split; [reflexivity|].
  apply (blank_identifier_matches_first_row row [] (lit "  ")). reflexivity.
Defined.

End MatcherFacts.

(** ** The schedule-table extractor *)

Module ScheduleFacts.

Import PyFacts ReFacts.

(** [re.fullmatch(r"\d{1,4}", s)] succeeds on the texts of one to four
    digits. *)
Lemma fullmatch_serial (s : str) : is_some (fullmatch serial_re s) = is_serial s.
Proof.
  unfold fullmatch, serial_re, is_serial.
  destruct s as [|a [|b [|c [|d [|e t]]]]]; cbn;
    repeat match goal with
           | |- context [isdecimal ?x] => destruct (isdecimal x); cbn
           end;
    reflexivity.
Qed.


Lemma row_entries_spec (tds : list str) :
  row_entries tds = Ok (if is_data_row tds then [row_of tds] else []).
Proof.
  unfold row_entries, is_data_row.
  destruct tds as [|first [|second rest]]; try reflexivity.
  cbn [length Nat.eqb Nat.ltb Nat.leb orb andb index nth_error bind hd].
  rewrite fullmatch_serial.
  destruct (is_serial first) eqn:S.
  - unfold is_serial in S. destruct first as [|a t]; [discriminate|]. reflexivity.
  - destruct (is_some (match_ header_re first)); reflexivity.
Qed.

Lemma for_each_ok {A B} (f : A -> res (list B)) (g : A -> list B) (l : list A) :
  (forall a, f a = Ok (g a)) -> for_each f l = Ok (flat_map g l).
Proof.
  intro H. induction l as [|a l IH]; simpl; [reflexivity|].
  now rewrite H, IH.
Qed.

Lemma flat_map_filter {A B} (p : A -> bool) (g : A -> B) (l : list A) :
  flat_map (fun a => if p a then [g a] else []) l = map g (filter p l).
Proof.
  induction l as [|a l IH]; simpl; [reflexivity|].
  destruct (p a); simpl; now rewrite IH.
Qed.

(** The extractor keeps exactly the data rows, in the order visited. *)
Lemma extract_schedule_rows_spec (rows : list (list str)) :
  extract_schedule_rows rows = Ok (map row_of (filter is_data_row rows)).
Proof.
  unfold extract_schedule_rows.
  rewrite (for_each_ok row_entries
             (fun tds => if is_data_row tds then [row_of tds] else []))
    by apply row_entries_spec.
  now rewrite flat_map_filter.
Qed.







(** C6. [parse_cause_list_html] never raises: it returns a sequence for every
    page, and the empty one for a page without tables and for a page whose
    tables have no data row. *)
Theorem parse_cause_list_never_raises :
  forall soup,
    exists rows,
      parse_cause_list_html soup = Ok rows
      /\ (find_all [lit "table"] soup = [] -> rows = [])
      /\ (forallb (fun tds => negb (is_data_row tds)) (visited_rows soup) = true ->
          rows = []).
Proof.
  intro soup. unfold parse_cause_list_html. rewrite extract_schedule_rows_spec.
  eexists. split; [reflexivity|]. split.
  - intro T. unfold visited_rows. now rewrite T.
  - intro N. induction (visited_rows soup) as [|tds l IH]; [reflexivity|].
    simpl in N. apply andb_true_iff in N as [D N].
    simpl. destruct (is_data_row tds); [discriminate | now apply IH].
Qed.

Lemma parse_cause_list_never_raises_witness :
  let no_table := Elem (lit "html") [Elem (lit "body") [Elem (lit "p") [Text (lit "No cases")]]] in
  let header_only :=
    Elem (lit "html") [Elem (lit "body") [Elem (lit "table")
      [Elem (lit "tr") [Elem (lit "th") [Text (lit "Sr No.")];
                        Elem (lit "th") [Text (lit "Case No")]]]]] in
  (find_all [lit "table"] no_table = [] /\ parse_cause_list_html no_table = Ok [])
  /\ (forallb (fun tds => negb (is_data_row tds)) (visited_rows header_only) = true
      /\ parse_cause_list_html header_only = Ok []).
Proof.
  intros no_table header_only. split; (split; [reflexivity|]).
  - destruct (parse_cause_list_never_raises no_table) as (rows & E & H & _).
    rewrite E. f_equal. apply H. reflexivity.
  - destruct (parse_cause_list_never_raises header_only) as (rows & E & _ & H).
    rewrite E. f_equal. apply H. reflexivity.
Defined.

End ScheduleFacts.

(** ** The listing resolver *)

Module ResolverFacts.

Import PyFacts.

Lemma next_day_ok (d : date) :
  (d_year d < 9999)%N ->
  exists d', next_day d = Ok d'
             /\ ((d_year d' < 9999)%N \/ (d_month d' = 1%N /\ d_day d' = 1%N)).
Proof.
  intro Y. unfold next_day.
  destruct (d_day d <? days_in_month (d_year d) (d_month d))%N.
  - eexists. split; [reflexivity|]. left. exact Y.
  - destruct (d_month d <? 12)%N.
    + eexists. split; [reflexivity|]. left. exact Y.
    + apply N.ltb_lt in Y. rewrite Y.
      eexists. split; [reflexivity|]. right. split; reflexivity.
Qed.

Lemma next_day_ok_soft (d : date) :
  (d_year d < 9999)%N \/ (d_month d = 1%N /\ d_day d = 1%N) ->
  exists d', next_day d = Ok d'.
Proof.
  intros [Y | [M D]].
  - destruct (next_day_ok d Y) as (d' & E & _). now exists d'.
  - unfold next_day. rewrite M, D. simpl. eexists. reflexivity.
Qed.

(** Before the last year of the calendar, today's and tomorrow's date in IST
    exist. *)
Lemma date_str_ist_ok (utcnow : datetime) (days : nat) :
  clock_ok utcnow -> days <= 1 -> exists t, date_str_ist utcnow days = Ok t.
Proof.
  unfold clock_ok. intros Y D. unfold date_str_ist, today_ist.
  assert (Step : forall d,
             (d_year d < 9999)%N \/ (d_month d = 1%N /\ d_day d = 1%N) ->
             exists t, (x <- add_days days d ;; Ok (strftime_dmy x)) = Ok t).
  { intros d Hd. destruct days as [|[|n]]; [| |lia]; simpl.
    - eexists. reflexivity.
    - destruct (next_day_ok_soft d Hd) as (d' & ->). simpl. eexists. reflexivity. }
  destruct (dt_hour utcnow * 60 + dt_minute utcnow + 330 <? 1440)%N; simpl.
  - apply Step. now left.
  - destruct (next_day_ok (dt_date utcnow) Y) as (d' & -> & Hd'). simpl.
    now apply Step.
Qed.

Lemma isdecimal_digit (n : N) : isdecimal (digit n) = true.
Proof.
  unfold digit.
  assert (H : (n mod 10 < 10)%N) by (apply N.mod_lt; discriminate).
  generalize dependent (n mod 10)%N. intros k H.
  assert (C : (k = 0 \/ k = 1 \/ k = 2 \/ k = 3 \/ k = 4 \/ k = 5 \/ k = 6
               \/ k = 7 \/ k = 8 \/ k = 9)%N) by lia.
  repeat (destruct C as [C | C]; [rewrite C; reflexivity|]).
  rewrite C. reflexivity.
Qed.

(** The rendered date has the DD-MM-YYYY form. *)
Lemma strftime_dmy_form (d : date) : is_ddmmyyyy (strftime_dmy d) = true.
Proof.
  unfold strftime_dmy, pad2, pad4. cbn [app lit list_ascii_of_string is_ddmmyyyy].
  rewrite !isdecimal_digit. reflexivity.
Qed.

Lemma is_date_in_hearings_spec (ov : CaseOverview) (t : str) :
  is_date_in_hearings (hearings ov) t = true <-> heard_on ov t.
Proof.
  unfold is_date_in_hearings, heard_on. rewrite existsb_exists.
  split; intros (h & Hin & E); exists h; (split; [exact Hin|]);
    now apply eqb_str_eq.
Qed.

(** C5. When schedule rows and an identifier both exist the resolver runs the
    matcher: on a match the details are the row's serial, court, case text and
    purpose and each requested flag is true, the other absent; without a match
    each requested flag is false and the details are absent. *)
Theorem schedule_match_decides_details_and_flags :
  forall overview row rows identifier today tomorrow utcnow,
    identifier <> [] ->
    exists decision,
      resolve_listing overview (row :: rows) (Some identifier) today tomorrow utcnow
      = Ok decision
      /\ match find_case_in_cause_list (row :: rows) identifier with
         | Some m =>
             listing_details decision
             = Some {| d_serial := serial m; d_court := court_info m;
                       d_case_text := case_text m; d_purpose := purpose m |}
             /\ listed_today decision = (if today then Some true else None)
             /\ listed_tomorrow decision = (if tomorrow then Some true else None)
         | None =>
             listing_details decision = None
             /\ listed_today decision = (if today then Some false else None)
             /\ listed_tomorrow decision = (if tomorrow then Some false else None)
         end.
Proof.
  intros overview row rows identifier today tomorrow utcnow Hid.
  destruct identifier as [|c k]; [congruence|].
  unfold resolve_listing, schedule_step. cbn [truthy text_of].
  destruct (find_case_in_cause_list (row :: rows) (c :: k)) as [m|];
    destruct overview as [ov|]; destruct today, tomorrow;
    cbn; eexists; (split; [reflexivity|]); repeat split.
Qed.

Lemma schedule_match_decides_details_and_flags_witness :
  let row := {| serial := lit "12"; case_text := Some (lit "OS 45/2023");
                purpose := None; court_info := None;
                raw_cells := [lit "12"; lit "OS 45/2023"; lit "Evidence"] |} in
  let now := {| dt_date := {| d_year := 2025; d_month := 3; d_day := 5 |};
                dt_hour := 4; dt_minute := 0 |} in
  lit "OS 45/2023" <> []
  /\ exists decision,
       resolve_listing None [row] (Some (lit "OS 45/2023")) true false now = Ok decision
       /\ listed_today decision = Some true.
Proof.
  intros row now.
  assert (H : lit "OS 45/2023" <> []) by discriminate.
  split; [exact H|].
  destruct (schedule_match_decides_details_and_flags None row [] (lit "OS 45/2023")
              true false now H)
    as (decision & E & M).
  exists decision. split; [exact E|].
  replace (find_case_in_cause_list [row] (lit "OS 45/2023")) with (Some row) in M
    by (vm_compute; reflexivity).
  apply M.
Defined.

Lemma date_str_ist_form (utcnow : datetime) (days : nat) (t : str) :
  date_str_ist utcnow days = Ok t -> is_ddmmyyyy t = true.
Proof.
  unfold date_str_ist. destruct (today_ist utcnow) as [now|e]; simpl; [|discriminate].
  destruct (add_days days (dt_date now)) as [d|e]; simpl; [|discriminate].
  intros [= <-]. apply strftime_dmy_form.
Qed.

(** The claim of C2 fails: with an identifier but no schedule rows and no
    overview, a requested flag stays absent. *)
Lemma identifier_without_rows_resolves_nothing :
  ~ (forall overview entries key today tomorrow utcnow decision,
        overview <> None \/ entries <> [] \/ key <> None ->
        resolve_listing overview entries key today tomorrow utcnow = Ok decision ->
        (today = true -> listed_today decision <> None)
        /\ (tomorrow = true -> listed_tomorrow decision <> None)).
Proof.
  intro H.
  destruct (H None [] (Some (lit "OS 45/2023")) true false
              {| dt_date := {| d_year := 2025; d_month := 3; d_day := 5 |};
                 dt_hour := 4; dt_minute := 0 |}
              undecided) as [T _].
  - right. right. discriminate.
  - reflexivity.
  - now apply T.
Qed.

(** The same through the arguments of [main]: a run with --case-type,
    --case-number, --year and --today whose cause list has no rows. *)
Lemma case_type_run_with_empty_cause_list :
  let args := {| a_case_type := Some (lit "OS"); a_case_number := Some (lit "45");
                 a_year := Some (lit "2023"); a_today := true; a_tomorrow := false |} in
  case_key_of args None = Some (lit "OS 45/2023")
  /\ forall utcnow, listing_of_run args None [] utcnow = Ok undecided.
Proof. split; [reflexivity | intro utcnow; reflexivity]. Qed.

(** C2, amended. A flag stays absent exactly when it was not requested, or
    when there is no case overview and the schedule rows or the identifier are
    missing; so a requested flag is resolved to true or false whenever an
    overview is present or rows and an identifier are both present. *)
Theorem flag_absent_iff_unrequested_or_nothing_to_check :
  forall overview entries key today tomorrow utcnow,
    clock_ok utcnow ->
    exists decision,
      resolve_listing overview entries key today tomorrow utcnow = Ok decision
      /\ (listed_today decision = None
          <-> today = false
              \/ (overview = None /\ (entries = [] \/ truthy key = false)))
      /\ (listed_tomorrow decision = None
          <-> tomorrow = false
              \/ (overview = None /\ (entries = [] \/ truthy key = false))).
Proof.
  intros overview entries key today tomorrow utcnow Hc.
  destruct (date_str_ist_ok utcnow 0 Hc) as [t0 E0]; [lia|].
  destruct (date_str_ist_ok utcnow 1 Hc) as [t1 E1]; [lia|].
  unfold resolve_listing, schedule_step, hearing_step.
  destruct overview as [ov|]; destruct entries as [|row rows];
    destruct key as [[|c k]|]; cbn [truthy text_of];
    try destruct (find_case_in_cause_list (row :: rows) (c :: k));
    destruct today, tomorrow; cbn; rewrite ?E0, ?E1; cbn;
    eexists; (split; [reflexivity|]); cbn;
    split; split; intro X;
    try discriminate X; try reflexivity;
    try (now left); try (right; split; [reflexivity|]; (now left) || (now right));
    repeat match goal with
           | H : _ \/ _ |- _ => destruct H
           | H : _ /\ _ |- _ => destruct H
           end; congruence.
Qed.

Lemma flag_absent_iff_unrequested_or_nothing_to_check_witness :
  let now := {| dt_date := {| d_year := 2025; d_month := 3; d_day := 5 |};
                dt_hour := 4; dt_minute := 0 |} in
  clock_ok now
  /\ exists decision,
       resolve_listing None [] (Some (lit "OS 45/2023")) true true now = Ok decision
       /\ listed_today decision = None.
Proof.
  intro now.
  assert (H : clock_ok now) by reflexivity.
  split; [exact H|].
  destruct (flag_absent_iff_unrequested_or_nothing_to_check
              None [] (Some (lit "OS 45/2023")) true true now H)
    as (decision & E & T & _).
  exists decision. split; [exact E|].
  apply T. right. split; [reflexivity | now left].
Defined.

(** C9. With a case overview, a requested flag that the schedule step left
    absent becomes true exactly when some hearing has the date of today (for
    [listed_today]) or of tomorrow (for [listed_tomorrow]), rendered as
    DD-MM-YYYY at the offset UTC+5:30. With the hearing 05-03-2025 (Arguments)
    and today rendered as 05-03-2025, asking for today gives true; at 18:30 UTC
    of 04-03-2025 the rendered day is already 05-03-2025. *)
Theorem fallback_flag_is_hearing_on_ist_date :
  (forall ov entries key today tomorrow utcnow,
      clock_ok utcnow ->
      exists decision t0 t1,
        resolve_listing (Some ov) entries key today tomorrow utcnow = Ok decision
        /\ date_str_ist utcnow 0 = Ok t0 /\ date_str_ist utcnow 1 = Ok t1
        /\ is_ddmmyyyy t0 = true /\ is_ddmmyyyy t1 = true
        /\ (today = true ->
            today_after_schedule entries key today tomorrow = None ->
            exists b, listed_today decision = Some b
                      /\ (b = true <-> heard_on ov t0))
        /\ (tomorrow = true ->
            tomorrow_after_schedule entries key today tomorrow = None ->
            exists b, listed_tomorrow decision = Some b
                      /\ (b = true <-> heard_on ov t1)))
  /\ (forall utcnow c n k,
        date_str_ist utcnow 0 = Ok (lit "05-03-2025") ->
        resolve_listing
          (Some {| cnr := c; case_number := n; court_name := k;
                   hearings := [{| h_date := lit "05-03-2025";
                                   h_purpose := Some (lit "Arguments") |}] |})
          [] None true false utcnow
        = Ok {| listed_today := Some true; listed_tomorrow := None;
                listing_details := None |})
  /\ (let at_ h m := {| dt_date := {| d_year := 2025; d_month := 3; d_day := 4 |};
                        dt_hour := h; dt_minute := m |} in
      date_str_ist (at_ 18 29) 0 = Ok (lit "04-03-2025")
      /\ date_str_ist (at_ 18 30) 0 = Ok (lit "05-03-2025")
      /\ date_str_ist (at_ 18 30) 1 = Ok (lit "06-03-2025"))%N.
Proof.
  split; [|split].
  - intros ov entries key today tomorrow utcnow Hc.
    destruct (date_str_ist_ok utcnow 0 Hc) as [t0 E0]; [lia|].
    destruct (date_str_ist_ok utcnow 1 Hc) as [t1 E1]; [lia|].
    pose proof (date_str_ist_form utcnow 0 t0 E0) as F0.
    pose proof (date_str_ist_form utcnow 1 t1 E1) as F1.
    pose proof (is_date_in_hearings_spec ov t0) as S0.
    pose proof (is_date_in_hearings_spec ov t1) as S1.
    unfold today_after_schedule, tomorrow_after_schedule,
      resolve_listing, hearing_step.
    destruct (schedule_step entries key today tomorrow) as [[details lt] lm].
    cbn [fst snd].
    destruct today, tomorrow; cbn [orb andb];
      destruct lt as [bt|], lm as [bm|]; cbn; rewrite ?E0, ?E1; cbn;
      eexists; exists t0, t1;
      (split; [reflexivity|]); repeat (split; [reflexivity || assumption|]);
      cbn; split; intros X Y; try discriminate X; try discriminate Y;
      eexists; (split; [reflexivity|]); assumption.
  - intros utcnow c n k E. unfold resolve_listing, hearing_step. cbn. rewrite E.
    reflexivity.
  - cbn zeta. repeat split; reflexivity.
Qed.

Lemma fallback_flag_is_hearing_on_ist_date_witness :
  let now := {| dt_date := {| d_year := 2025; d_month := 3; d_day := 5 |};
                dt_hour := 4; dt_minute := 0 |} in
  let ov := {| cnr := None; case_number := None; court_name := None;
               hearings := [{| h_date := lit "05-03-2025";
                               h_purpose := Some (lit "Arguments") |}] |} in
  clock_ok now
  /\ today_after_schedule [] None true false = None
  /\ exists decision, resolve_listing (Some ov) [] None true false now = Ok decision
                      /\ exists b, listed_today decision = Some b.
Proof.
  intros now ov.
  assert (H : clock_ok now) by reflexivity.
  split; [exact H|]. split; [reflexivity|].
  destruct (proj1 fallback_flag_is_hearing_on_ist_date ov [] None true false now H)
    as (decision & t0 & t1 & E & _ & _ & _ & _ & T & _).
  exists decision. split; [exact E|].
  destruct (T eq_refl eq_refl) as (b & Hb & _). now exists b.
Defined.

End ResolverFacts.

(** ** The case-status extractor: hearings *)

Module HearingFacts.

Import PyFacts ReFacts.

Local Arguments eqb_char : simpl never.
Local Arguments isdecimal : simpl never.

Lemma rep_done (R : Type) (p : ascii -> bool) pos prev rest (k : cursor -> option R) :
  rep p 0 (Some 0) pos prev rest k = k (Cursor pos prev rest).
Proof.
  destruct rest; cbn; [reflexivity|]. now rewrite andb_false_r.
Qed.

(** The date pattern matches at a position exactly when the next ten
    characters have the DD-MM-YYYY form, and then it takes them. *)
Lemma match_at_date (pos : nat) (prev : option ascii) (rest : str) :
  match_at date_re (Cursor pos prev rest)
  = if is_ddmmyyyy (firstn 10 rest)
    then Some (Match pos (pos + 10) [(1, firstn 10 rest)])
    else None.
Proof.
  unfold match_at, date_re.
  destruct rest as [|d1 [|d2 [|s1 [|m1 [|m2 [|s2 [|y1 [|y2 [|y3 [|y4 t]]]]]]]]]];
    cbn;
    repeat match goal with
           | |- context [isdecimal ?x] => destruct (isdecimal x); cbn
           | |- context [is_char ?a ?x] => change (is_char a x) with (eqb_char a x)
           | |- context [eqb_char ?a ?x] => destruct (eqb_char a x); cbn
           end;
    try reflexivity.
  all: rewrite ?rep_done; cbn -[Nat.sub firstn].
  all: try match goal with
           | |- context [firstn (?a - ?p) _] => replace (a - p) with 10 by lia
           end.
  all: cbn; repeat f_equal; try lia.
Qed.

(** [finditer] on the date pattern is the scan for dates. *)
Lemma finditer_date_scan :
  forall rest pos prev skip,
    finditer_from date_re pos prev rest skip
    = map (fun i => Match (pos + i) (pos + i + 10) [(1, firstn 10 (skipn i rest))])
          (scan_dates rest skip).
Proof.
  induction rest as [|a t IH]; intros pos prev skip; [reflexivity|].
  assert (Shift : forall n,
             finditer_from date_re (S pos) (Some a) t n
             = map (fun i => Match (pos + i) (pos + i + 10)
                               [(1, firstn 10 (skipn i (a :: t)))])
                   (map S (scan_dates t n))).
  { intro n. rewrite IH, map_map. apply map_ext. intro i.
    replace (pos + S i) with (S pos + i) by lia. reflexivity. }
  destruct skip as [|n]; cbn [finditer_from scan_dates].
  - rewrite match_at_date.
    destruct (is_ddmmyyyy (firstn 10 (a :: t))).
    + cbn [m_end map]. replace (pos + 10 - pos - 1) with 9 by lia.
      rewrite Shift. rewrite Nat.add_0_r. reflexivity.
    + apply Shift.
  - apply Shift.
Qed.

Lemma slice_ten (text : str) (i : nat) :
  slice i (i + 10) text = firstn 10 (skipn i text).
Proof. unfold slice. now replace (i + 10 - i) with 10 by lia. Qed.

(** The hearings are the entries of the dates the scan finds. *)
Lemma hearings_scan (text : str) :
  hearings (extract_case_overview text) = map (entry_at text) (scan_dates text 0).
Proof.
  unfold extract_case_overview, finditer. cbn [hearings].
  rewrite finditer_date_scan, map_map. apply map_ext. intro i.
  unfold hearing_of, entry_at, window_of, group.
  cbn [m_start m_end m_caps lookup Nat.eqb Nat.add].
  now rewrite slice_ten, Nat.max_0_r.
Qed.

(** What the scan finds, when it starts after [skip] more characters: dates,
    none of them overlapping another, and every date of the text is one of
    them or starts inside one of them. *)
Lemma scan_dates_props :
  forall rest skip,
    Forall (fun i => skip <= i /\ is_ddmmyyyy (firstn 10 (skipn i rest)) = true)
           (scan_dates rest skip)
    /\ StronglySorted (fun i j => i + 10 <= j) (scan_dates rest skip)
    /\ (forall j, skip <= j -> is_ddmmyyyy (firstn 10 (skipn j rest)) = true ->
                  exists i, In i (scan_dates rest skip) /\ i <= j < i + 10).
Proof.
  induction rest as [|a t IH]; intros skip.
  - repeat split; [constructor | constructor |].
    intros j _ H. destruct j; discriminate H.
  - assert (Shift : forall n,
               Forall (fun i => S n <= i
                                /\ is_ddmmyyyy (firstn 10 (skipn i (a :: t))) = true)
                      (map S (scan_dates t n))
               /\ StronglySorted (fun i j => i + 10 <= j) (map S (scan_dates t n))
               /\ (forall j, S n <= j ->
                             is_ddmmyyyy (firstn 10 (skipn j (a :: t))) = true ->
                             exists i, In i (map S (scan_dates t n)) /\ i <= j < i + 10)).
    { intro n. destruct (IH n) as (A & B & C). repeat split.
      - apply Forall_map. eapply Forall_impl; [|exact A].
        intros i [L D]. split; [lia | exact D].
      - clear A C. induction B as [|x l B IHB Hx]; simpl; constructor; [exact IHB|].
        apply Forall_map. eapply Forall_impl; [|exact Hx]. cbn. intros; lia.
      - intros [|j] L D; [lia|].
        destruct (C j ltac:(lia) D) as (i & Hi & R).
        exists (S i). split; [now apply in_map | lia]. }
    destruct skip as [|n]; cbn [scan_dates].
    + destruct (is_ddmmyyyy (firstn 10 (a :: t))) eqn:D.
      * destruct (Shift 9) as (A & B & C). repeat split.
        -- constructor; [split; [lia | exact D]|].
           eapply Forall_impl; [|exact A]. intros i [L E]. split; [lia | exact E].
        -- constructor; [exact B|].
           eapply Forall_impl; [|exact A]. intros i [L _]. lia.
        -- intros j _ E. destruct (Nat.le_gt_cases 10 j) as [G | G].
           ++ destruct (C j G E) as (i & Hi & R). exists i. split; [now right | exact R].
           ++ exists 0. split; [now left | lia].
      * destruct (Shift 0) as (A & B & C). repeat split.
        -- eapply Forall_impl; [|exact A]. intros i [L E]. split; [lia | exact E].
        -- exact B.
        -- intros [|j] _ E; [simpl skipn in E; congruence|].
           apply C; [lia | exact E].
    + destruct (Shift n) as (A & B & C). repeat split; assumption.
Qed.

Lemma date_at_spec (text : str) (i : nat) :
  date_at text i = is_ddmmyyyy (firstn 10 (skipn i text)).
Proof. unfold date_at. now rewrite slice_ten. Qed.

Lemma date_at_inside (text : str) (i : nat) : date_at text i = true -> i < length text.
Proof.
  rewrite date_at_spec. intro H.
  destruct (Nat.lt_ge_cases i (length text)) as [L | L]; [exact L|].
  rewrite skipn_all2 in H by exact L. discriminate H.
Qed.

Lemma occurrences_spec (text : str) (i : nat) :
  In i (occurrences text) <-> date_at text i = true.
Proof.
  unfold occurrences. rewrite filter_In, in_seq. split.
  - now intros [_ H].
  - intro H. split; [|exact H]. pose proof (date_at_inside text i H). lia.
Qed.

Lemma seq_sorted (a n : nat) : StronglySorted lt (seq a n).
Proof.
  revert a. induction n as [|n IH]; intro a; simpl; constructor; [apply IH|].
  apply Forall_forall. intros x Hx. apply in_seq in Hx. lia.
Qed.

Lemma filter_sorted {A} (R : A -> A -> Prop) (p : A -> bool) (l : list A) :
  StronglySorted R l -> StronglySorted R (filter p l).
Proof.
  induction 1 as [|x l S IH Hx]; simpl; [constructor|].
  destruct (p x); [|exact IH]. constructor; [exact IH|].
  apply Forall_forall. intros y Hy. apply filter_In in Hy as [Hy _].
  rewrite Forall_forall in Hx. now apply Hx.
Qed.

Lemma sorted_weaken {A} (R Q : A -> A -> Prop) (l : list A) :
  (forall x y, R x y -> Q x y) -> StronglySorted R l -> StronglySorted Q l.
Proof.
  intros W. induction 1 as [|x l S IH Hx]; constructor; [exact IH|].
  eapply Forall_impl; [|exact Hx]. apply W.
Qed.

(** Two increasing lists with the same elements are equal. *)
Lemma sorted_same_elements (l1 l2 : list nat) :
  StronglySorted lt l1 -> StronglySorted lt l2 ->
  (forall x, In x l1 <-> In x l2) -> l1 = l2.
Proof.
  intro S1. revert l2. induction S1 as [|x l1 S1 IH Hx]; intros l2 S2 E.
  - destruct l2 as [|y l2]; [reflexivity|]. destruct (proj2 (E y)). now left.
  - destruct S2 as [|y l2 S2 Hy]; [destruct (proj1 (E x)); now left|].
    rewrite Forall_forall in Hx, Hy.
    assert (x = y).
    { destruct (proj1 (E x) (or_introl eq_refl)) as [-> | X]; [reflexivity|].
      destruct (proj2 (E y) (or_introl eq_refl)) as [-> | Y]; [reflexivity|].
      pose proof (Hx y Y). pose proof (Hy x X). lia. }
    subst y. f_equal. apply IH; [exact S2|].
    intro z. split; intro Hz.
    + destruct (proj1 (E z) (or_intror Hz)) as [-> | Z]; [|exact Z].
      pose proof (Hx z Hz). lia.
    + destruct (proj2 (E z) (or_intror Hz)) as [-> | Z]; [|exact Z].
      pose proof (Hy z Hz). lia.
Qed.

(** Every recorded date has the DD-MM-YYYY form. *)
Lemma hearing_dates_have_form (text : str) :
  Forall (fun h => is_ddmmyyyy (h_date h) = true) (hearings (extract_case_overview text)).
Proof.
  rewrite hearings_scan. apply Forall_map.
  destruct (scan_dates_props text 0) as (A & _ & _).
  eapply Forall_impl; [|exact A]. intros i [_ D].
  cbn [entry_at h_date]. now rewrite slice_ten.
Qed.

(** C3. On a page whose text is "Next date 05-03-2025 Stage   [Evidence]" the
    extractor records the hearing of 05-03-2025 with the empty text as its
    purpose, where the claim has an absent purpose: the three spaces after the
    label are taken as the purpose and stripped. *)
Theorem blank_purpose_is_recorded_as_empty_text :
  let page :=
    Elem (lit "html") [Elem (lit "body")
      [Elem (lit "p") [Text (lit "Next date 05-03-2025 Stage   [Evidence]")]]] in
  get_text (lit " ") page = lit "Next date 05-03-2025 Stage   [Evidence]"
  /\ hearings (parse_case_status_html page)
     = [{| h_date := lit "05-03-2025"; h_purpose := Some [] |}].
Proof. split; vm_compute; reflexivity. Qed.

(** The claim of C7 fails: in "12-34-5678-90-1234" a DD-MM-YYYY substring
    starts at 0 and another at 8, and one hearing is recorded. *)
Lemma overlapping_dates_give_one_entry :
  ~ (forall text,
        map h_date (hearings (extract_case_overview text))
        = map (fun i => slice i (i + 10) text) (occurrences text)).
Proof.
  intro H. specialize (H (lit "12-34-5678-90-1234")).
  vm_compute in H. discriminate H.
Qed.

End HearingFacts.

(** ** The case-status extractor: the registry identifier *)

Module CnrFacts.

Import PyFacts ReFacts.

Lemma firstn_add {A} (n m : nat) (l : list A) :
  firstn (n + m) l = firstn n l ++ firstn m (skipn n l).
Proof.
  revert l. induction n as [|n IH]; intro l; simpl; [reflexivity|].
  destruct l as [|a l]; simpl; [now rewrite firstn_nil | now rewrite IH].
Qed.

Lemma run_prefix (p : ascii -> bool) (n : nat) (s : str) :
  n <= run_length p s -> forallb p (firstn n s) = true /\ length (firstn n s) = n.
Proof.
  revert s. induction n as [|n IH]; intros s H; [now split|].
  destruct s as [|c s]; simpl in H; [lia|].
  destruct (p c) eqn:C; [|lia].
  destruct (IH s ltac:(lia)) as [F L]. simpl. rewrite C, F, L. now split.
Qed.

Lemma spans_derives r c g n g' : spans r c g n g' -> derives r (firstn n (c_rest c)).
Proof.
  induction 1.
  - constructor.
  - rewrite H. simpl. now constructor.
  - rewrite firstn_add. rewrite rest_advance in IHspans2. now constructor.
  - now apply derives_alt_l.
  - now apply derives_alt_r.
  - destruct (run_prefix p n (c_rest c) H0) as [F L].
    constructor; rewrite ?L; assumption.
  - now constructor.
  - constructor.
Qed.

Lemma spans_cat_inv r1 r2 c g n g' :
  spans (Cat r1 r2) c g n g' ->
  exists n1 g1 n2,
    n = n1 + n2 /\ spans r1 c g n1 g1 /\ spans r2 (advance c n1) g1 n2 g'.
Proof. inversion 1; subst. now exists n1, g1, n2. Qed.

Lemma spans_grp_inv i r c g n g' :
  spans (Grp i r) c g n g' ->
  exists g1, g' = (i, firstn n (c_rest c)) :: g1 /\ spans r c g n g1.
Proof. inversion 1; subst. now eexists. Qed.

Lemma spans_eps_inv c g n g' : spans Eps c g n g' -> n = 0 /\ g' = g.
Proof. inversion 1; now subst. Qed.

Lemma derives_cat_inv r1 r2 w :
  derives (Cat r1 r2) w -> exists w1 w2, w = w1 ++ w2 /\ derives r1 w1 /\ derives r2 w2.
Proof. inversion 1; subst. now exists w1, w2. Qed.

Lemma derives_chr_inv p w : derives (Chr p) w -> exists a, w = [a] /\ p a = true.
Proof. inversion 1; subst. now eexists. Qed.

Lemma derives_eps_inv w : derives Eps w -> w = [].
Proof. now inversion 1. Qed.

Lemma derives_rep_inv p lo hi w :
  derives (Rep p lo hi) w -> lo <= length w /\ within hi (length w) /\ forallb p w = true.
Proof. inversion 1; now subst. Qed.

Lemma derives_grp_inv i r w : derives (Grp i r) w -> derives r w.
Proof. now inversion 1. Qed.

Lemma derives_chars_i (s : string) (w : str) : derives (chars_i s) w -> same_i s w.
Proof.
  unfold chars_i, same_i. generalize (lit s). intro l. revert w.
  induction l as [|x l IH]; intros w D; cbn [cat_all fold_right map] in D.
  - apply derives_eps_inv in D. now subst.
  - apply derives_cat_inv in D as (w1 & w2 & -> & D1 & D2).
    apply derives_chr_inv in D1 as (a & -> & Pa).
    apply eqb_char_eq in Pa. simpl. rewrite Pa. f_equal. now apply IH.
Qed.

Lemma derives_star (p : ascii -> bool) (w : str) :
  derives (star p) w -> forallb p w = true.
Proof. intro D. now apply derives_rep_inv in D. Qed.

Lemma derives_opt (p : ascii -> bool) (w : str) :
  derives (opt p) w -> w = [] \/ exists a, w = [a] /\ p a = true.
Proof.
  intro D. apply derives_rep_inv in D as (_ & H & F). simpl in H.
  destruct w as [|a [|b w]]; simpl in H; [now left | right | lia].
  exists a. split; [reflexivity|]. simpl in F. now rewrite andb_true_r in F.
Qed.

Lemma forallb_app_true {A} (p : A -> bool) (l1 l2 : list A) :
  forallb p l1 = true -> forallb p l2 = true -> forallb p (l1 ++ l2) = true.
Proof. intros H1 H2. rewrite forallb_app, H1, H2. reflexivity. Qed.

(** What the separator pattern takes. *)
Lemma derives_sep (w : str) :
  derives sep_re w ->
  exists w3 sep w4,
    w = w3 ++ sep ++ w4 /\ forallb isspace w3 = true
    /\ (sep = [] \/ sep = lit ":" \/ sep = lit "-") /\ forallb isspace w4 = true.
Proof.
  unfold sep_re. cbn [cat_all fold_right]. intro D.
  apply derives_cat_inv in D as (w3 & r1 & -> & D3 & D).
  apply derives_cat_inv in D as (sep & r2 & -> & Ds & D).
  apply derives_cat_inv in D as (w4 & r3 & -> & D4 & D).
  apply derives_eps_inv in D as ->. rewrite app_nil_r.
  exists w3, sep, w4. repeat split.
  - now apply derives_star.
  - apply derives_opt in Ds as [-> | (a & -> & Pa)]; [now left | right].
    unfold colon_or_dash, one_of in Pa. cbn in Pa.
    rewrite orb_false_r in Pa. apply orb_true_iff in Pa as [E | E];
      apply eqb_char_eq in E; subst a; [now left | now right].
  - now apply derives_star.
Qed.

(** What the label part of the CNR pattern takes. *)
Lemma derives_cnr_label (w s : str) :
  derives (cat_all [chars_i "CNR"; star isspace; chars_i "No"; opt (is_char ".")]) w ->
  derives sep_re s -> cnr_label (w ++ s).
Proof.
  cbn [cat_all fold_right]. intros D Ds.
  apply derives_cat_inv in D as (w0 & r1 & -> & D0 & D).
  apply derives_cat_inv in D as (w1 & r2 & -> & D1 & D).
  apply derives_cat_inv in D as (w2 & r3 & -> & D2 & D).
  apply derives_cat_inv in D as (dot & r4 & -> & Dd & D).
  apply derives_eps_inv in D as ->. rewrite app_nil_r.
  apply derives_sep in Ds as (w3 & sep & w4 & -> & S3 & Hsep & S4).
  exists w0, w1, dot, w2, sep, w3, w4. repeat split.
  - now rewrite <- !app_assoc.
  - now apply derives_chars_i.
  - now apply derives_star.
  - now apply derives_chars_i.
  - apply derives_opt in Dd as [-> | (a & -> & Pa)]; [now left | right].
    apply eqb_char_eq in Pa. now subst a.
  - exact S3.
  - exact Hsep.
  - exact S4.
Qed.

Lemma icase_upper_alnum (c : ascii) : icase upper_alnum c = alnum c.
Proof. destruct c as [[] [] [] [] [] [] [] []]; reflexivity. Qed.

Lemma alnum_not_space (c : ascii) : alnum c = true -> isspace c = false.
Proof. destruct c as [[] [] [] [] [] [] [] []]; try reflexivity; discriminate. Qed.

Lemma upper_alnum_alnum (c : ascii) : upper_alnum c = true -> alnum c = true.
Proof. destruct c as [[] [] [] [] [] [] [] []]; try reflexivity; discriminate. Qed.

Lemma forallb_impl {A} (p q : A -> bool) (l : list A) :
  (forall a, p a = true -> q a = true) -> forallb p l = true -> forallb q l = true.
Proof.
  intros W. induction l as [|a l IH]; simpl; [reflexivity|].
  intro H. apply andb_true_iff in H as [Pa Pl]. now rewrite (W a Pa), IH.
Qed.

(** A text without whitespace at its ends is its own [strip]. *)
Lemma strip_solid (w : str) :
  forallb (fun c => negb (isspace c)) w = true -> strip w = w.
Proof.
  intro H.
  assert (L : forall v, forallb (fun c => negb (isspace c)) v = true -> lstrip v = v).
  { intros [|c v] Hv; [reflexivity|]. simpl in Hv. simpl.
    apply andb_true_iff in Hv as [C _]. now destruct (isspace c). }
  unfold strip, rstrip. rewrite (L w H), L, rev_involutive; [reflexivity|].
  rewrite forallb_forall in *. intros x Hx. apply H. now apply in_rev.
Qed.

(** A match of the CNR pattern at a position: the text from there is a label,
    then the 16 letters or digits of group 2. *)
Lemma cnr_match_shape (c : cursor) (m : rmatch) :
  match_at cnr_re c = Some m ->
  exists lab id post,
    c_rest c = lab ++ id ++ post /\ cnr_label lab /\ length id = 16
    /\ forallb alnum id = true /\ group 2 m = id.
Proof.
  intro H. apply match_at_sound in H as (n & g & S & ->).
  unfold cnr_re in S. cbn [cat_all fold_right] in S.
  apply spans_cat_inv in S as (n1 & g1 & n1' & -> & S1 & S).
  apply spans_cat_inv in S as (n2 & g2 & n2' & -> & S2 & S).
  apply spans_cat_inv in S as (n3 & g3 & n3' & -> & S3 & S).
  apply spans_eps_inv in S as [-> ->].
  apply spans_grp_inv in S1 as (g1' & -> & S1).
  apply spans_grp_inv in S3 as (g3' & -> & S3).
  pose proof (spans_derives _ _ _ _ _ S1) as D1.
  pose proof (spans_derives _ _ _ _ _ S2) as D2.
  pose proof (spans_derives _ _ _ _ _ S3) as D3.
  rewrite !rest_advance in *.
  apply derives_rep_inv in D3 as (Lo & Hi & F). simpl in Hi.
  exists (firstn n1 (c_rest c) ++ firstn n2 (skipn n1 (c_rest c))),
         (firstn n3 (skipn n2 (skipn n1 (c_rest c)))),
         (skipn n3 (skipn n2 (skipn n1 (c_rest c)))).
  repeat split.
  - rewrite <- app_assoc, !firstn_skipn. reflexivity.
  - apply derives_cnr_label; [exact D1 | exact D2].
  - lia.
  - eapply forallb_impl; [|exact F]. intros a Pa. now rewrite <- icase_upper_alnum.
Qed.

Lemma advance_start (text : str) (i : nat) :
  c_rest (cursor_at text i) = skipn i text.
Proof. unfold cursor_at. now rewrite rest_advance. Qed.

(** The registry identifier, when present, comes after a label and is 16
    letters or digits. *)
Lemma cnr_found_shape (text id : str) :
  cnr (extract_case_overview text) = Some id ->
  exists pre lab post,
    text = pre ++ lab ++ id ++ post /\ cnr_label lab /\ length id = 16
    /\ forallb alnum id = true.
Proof.
  cbn [extract_case_overview cnr]. unfold field, search.
  destruct (search_from cnr_re 0 None text) as [m|] eqn:E; [|discriminate].
  cbn [option_map]. intros [= <-].
  apply search_from_sound in E as (i & Hi & Hm & _).
  apply cnr_match_shape in Hm as (lab & id & post & R & L & N & F & G).
  rewrite rest_advance in R. cbn [c_rest] in R.
  assert (Solid : strip id = id).
  { apply strip_solid. eapply forallb_impl; [|exact F].
    intros a Pa. now rewrite (alnum_not_space a Pa). }
  rewrite G, Solid.
  exists (firstn i text), lab, post. repeat split; try assumption.
  now rewrite <- R, firstn_skipn.
Qed.

(** If the rest of the pattern succeeds after the longest repeat, that is the
    result. *)
Lemma rep_first (R : Type) (p : ascii -> bool) (k : cursor -> option R) (x : R) :
  forall rest lo hi pos prev,
    lo <= first_take p hi rest ->
    k (advance (Cursor pos prev rest) (first_take p hi rest)) = Some x ->
    rep p lo hi pos prev rest k = Some x.
Proof.
  induction rest as [|a t IH]; intros lo hi pos prev Lo K.
  - assert (E : first_take p hi [] = 0) by (destruct hi; reflexivity).
    rewrite E in *. cbn [rep]. destruct lo; [exact K | lia].
  - cbn [rep]. destruct (p a) eqn:Pa.
    + destruct hi as [[|h]|]; cbn [andb hi_allows option_map Nat.pred].
      * unfold first_take in *. rewrite Nat.min_0_r in *.
        destruct lo; [exact K | lia].
      * unfold first_take in *. cbn [run_length] in *. rewrite Pa in *.
        rewrite <- Nat.succ_min_distr in *.
        rewrite (IH (pred lo) (Some h) (S pos) (Some a)); [reflexivity | | exact K].
        unfold first_take. cbn [Nat.pred]. lia.
      * unfold first_take in *. cbn [run_length] in *. rewrite Pa in *.
        rewrite (IH (pred lo) None (S pos) (Some a)); [reflexivity | | exact K].
        unfold first_take. lia.
    + assert (E : first_take p hi (a :: t) = 0).
      { unfold first_take. cbn [run_length]. rewrite Pa. now destruct hi. }
      rewrite E in *. cbn [andb]. destruct lo; [exact K | lia].
Qed.

Lemma exec_rep (R : Type) p lo hi c g (k : cursor -> caps -> option R) x :
  lo <= first_take p hi (c_rest c) ->
  k (advance c (first_take p hi (c_rest c))) g = Some x ->
  exec (Rep p lo hi) c g k = Some x.
Proof.
  intros Lo K. cbn [exec]. apply rep_first; [exact Lo|]. now destruct c.
Qed.

Lemma exec_chars_i (R : Type) (s : string) (w : str) :
  lower w = lower (lit s) ->
  forall c g (k : cursor -> caps -> option R) x t,
    c_rest c = w ++ t ->
    k (advance c (length w)) g = Some x ->
    exec (chars_i s) c g k = Some x.
Proof.
  unfold chars_i. generalize (lit s). intros l. revert w.
  induction l as [|y l IH]; intros [|a w] E c g k x t Hc K; try discriminate E.
  - exact K.
  - cbn [lower map] in E. injection E as Ea Ew.
    cbn [map cat_all fold_right exec]. cbn [app] in Hc. rewrite Hc.
    unfold is_char_i at 1. rewrite Ea, eqb_char_refl.
    apply (IH w Ew) with (t := t); [reflexivity|].
    cbn [length advance] in K. now rewrite (step_cons c a (w ++ t) Hc) in K.
Qed.

Lemma run_length_app (p : ascii -> bool) (w t : str) :
  forallb p w = true -> run_length p (w ++ t) = length w + run_length p t.
Proof.
  induction w as [|a w IH]; simpl; [reflexivity|].
  intro H. apply andb_true_iff in H as [Pa Pw]. now rewrite Pa, IH.
Qed.

Ltac lit_tests :=
  repeat match goal with
         | |- context [?p (Ascii ?b0 ?b1 ?b2 ?b3 ?b4 ?b5 ?b6 ?b7)] =>
             let t := constr:(p (Ascii b0 b1 b2 b3 b4 b5 b6 b7)) in
             match type of t with
             | bool => let v := eval vm_compute in t in change t with v
             end
         end;
  cbv iota.

Lemma cnr_match_here (pos : nat) (prev : option ascii) (id post : str) :
  length id = 16 -> forallb upper_alnum id = true ->
  exists m,
    match_at cnr_re (Cursor pos prev (lit "CNR No: " ++ id ++ post)) = Some m
    /\ group 2 m = id.
Proof.
  intros L F.
  assert (F' : forallb (icase upper_alnum) id = true).
  { eapply forallb_impl; [|exact F]. intros a Pa.
    rewrite icase_upper_alnum. now apply upper_alnum_alnum. }
  assert (R0 : run_length isspace (id ++ post) = 0).
  { destruct id as [|c1 id']; [discriminate L|].
    cbn [forallb] in F'. apply andb_true_iff in F' as [Pc _].
    rewrite icase_upper_alnum in Pc. apply alnum_not_space in Pc.
    cbn [app run_length]. now rewrite Pc. }
  assert (R16 : Nat.min (run_length (icase upper_alnum) (id ++ post)) 16 = 16).
  { rewrite run_length_app by exact F'. lia. }
  eexists. split.
  - unfold match_at, cnr_re, sep_re. cbn [cat_all fold_right exec].
    apply exec_chars_i with (w := lit "CNR") (t := lit " No: " ++ id ++ post);
      [reflexivity | reflexivity |].
    cbn [lit list_ascii_of_string length advance step c_rest c_pos app].
    apply exec_rep; cbn [c_rest first_take run_length]; lit_tests; [lia|].
    cbn [advance step c_rest c_pos].
    apply exec_chars_i with (w := lit "No") (t := lit ": " ++ id ++ post);
      [reflexivity | reflexivity |].
    cbn [lit list_ascii_of_string length advance step c_rest c_pos app].
    apply exec_rep; cbn [c_rest first_take run_length]; lit_tests;
      cbn [Nat.min]; [lia|].
    cbn [advance c_pos c_rest].
    apply exec_rep; cbn [c_rest first_take run_length]; lit_tests; [lia|].
    cbn [advance].
    apply exec_rep; cbn [c_rest first_take run_length]; lit_tests;
      cbn [Nat.min]; [lia|].
    cbn [advance step c_rest c_pos].
    apply exec_rep; cbn [c_rest first_take run_length]; lit_tests;
      rewrite R0; [lia|].
    cbn [advance step c_rest c_pos].
    apply exec_rep; cbn [c_rest first_take]; rewrite R16; [unfold times; lia|].
    reflexivity.
  - unfold group. cbn [m_caps lookup Nat.eqb].
    rewrite pos_advance by (cbn [c_rest]; rewrite length_app; lia).
    cbn [c_pos c_rest].
    match goal with |- firstn ?n _ = _ => replace n with (length id) by lia end.
    now rewrite firstn_app, Nat.sub_diag, firstn_all, app_nil_r.
Qed.

Lemma advance_app (pre : str) :
  forall pos prev rest,
    exists prev',
      advance (Cursor pos prev (pre ++ rest)) (length pre)
      = Cursor (pos + length pre) prev' rest.
Proof.
  induction pre as [|a pre IH]; intros pos prev rest.
  - exists prev. cbn. now rewrite Nat.add_0_r.
  - destruct (IH (S pos) (Some a) rest) as (prev' & E).
    exists prev'. cbn [app length advance]. unfold step. cbn [c_rest c_pos].
    rewrite E. f_equal. lia.
Qed.

(** The first label match decides: a "CNR No: " label with 16 upper-case
    letters or digits is returned when the pattern matches nowhere before. *)
Lemma cnr_found_here (pre id post : str) :
  length id = 16 -> forallb upper_alnum id = true ->
  (forall i, i < length pre ->
             matches_at cnr_re (pre ++ lit "CNR No: " ++ id ++ post) i = false) ->
  cnr (extract_case_overview (pre ++ lit "CNR No: " ++ id ++ post)) = Some id.
Proof.
  intros L F Before. cbn [extract_case_overview cnr]. unfold field, search.
  destruct (advance_app pre 0 None (lit "CNR No: " ++ id ++ post)) as (prev' & A).
  destruct (cnr_match_here (0 + length pre) prev' id post L F) as (m & M & G).
  rewrite (search_from_found cnr_re m (length pre)).
  - cbn [option_map]. rewrite G. f_equal. apply strip_solid.
    eapply forallb_impl; [|exact F]. intros a Pa.
    now rewrite (alnum_not_space a (upper_alnum_alnum a Pa)).
  - now rewrite A.
  - rewrite length_app. lia.
  - intros j Hj. specialize (Before j Hj). unfold matches_at, cursor_at, start_of in Before.
    now destruct (match_at cnr_re _).
Qed.

Lemma filter_all {A} (p : A -> bool) (l : list A) : forallb p l = true -> filter p l = l.
Proof.
  induction l as [|a l IH]; simpl; [reflexivity|].
  intro H. apply andb_true_iff in H as [Pa Pl]. now rewrite Pa, IH.
Qed.

(** The claim of C8 fails twice: an earlier match of the pattern wins over a
    later "CNR No: " label, and 16 lower-case letters after the label are
    returned although no label is followed by 16 upper-case characters. *)
Lemma cnr_claim_fails :
  ~ (forall pre id post,
        length id = 16 -> forallb upper_alnum id = true ->
        cnr (extract_case_overview (pre ++ lit "CNR No: " ++ id ++ post)) = Some id)
  /\ ~ (forall text,
          ~ (exists pre lab id post,
                text = pre ++ lab ++ id ++ post /\ cnr_label lab
                /\ length id = 16 /\ forallb upper_alnum id = true) ->
          cnr (extract_case_overview text) = None).
Proof.
  split; intro H.
  - specialize (H (lit "CNR No. 1234567890123456; ") (lit "ABCDEFGHIJKLMNOP") []
                  eq_refl eq_refl).
    vm_compute in H. discriminate H.
  - specialize (H (lit "CNR No: abcdefghijklmnop")).
    assert (N : cnr (extract_case_overview (lit "CNR No: abcdefghijklmnop"))
                = Some (lit "abcdefghijklmnop")) by (vm_compute; reflexivity).
    rewrite N in H. discriminate H.
    intros (pre & lab & id & post & E & _ & L & F).
    apply (f_equal (fun t => length (filter upper_alnum t))) in E.
    cbv beta in E.
    replace (length (filter upper_alnum (lit "CNR No: abcdefghijklmnop"))) with 4 in E
      by (vm_compute; reflexivity).
    rewrite !filter_app, !length_app, (filter_all upper_alnum id F), L in E.
    lia.
Qed.

(** C8, amended. When the flattened text has a label "CNR No: " followed by 16
    upper-case letters or digits and the pattern matches at no earlier
    position, the registry identifier is that 16-character text; and the
    registry identifier is absent whenever the text has no "CNR No" label (any
    case, optional period, optional colon or dash, optional whitespace)
    followed by 16 letters or digits. *)
Theorem cnr_is_first_label_match :
  (forall pre id post,
      length id = 16 -> forallb upper_alnum id = true ->
      (forall i, i < length pre ->
                 matches_at cnr_re (pre ++ lit "CNR No: " ++ id ++ post) i = false) ->
      cnr (extract_case_overview (pre ++ lit "CNR No: " ++ id ++ post)) = Some id)
  /\ (forall text,
        ~ (exists pre lab id post,
              text = pre ++ lab ++ id ++ post /\ cnr_label lab
              /\ length id = 16 /\ forallb alnum id = true) ->
        cnr (extract_case_overview text) = None).
Proof.
  split.
  - apply cnr_found_here.
  - intros text N. destruct (cnr (extract_case_overview text)) as [id|] eqn:E;
      [|reflexivity].
    destruct N. apply cnr_found_shape in E as (pre & lab & post & E & L & Len & F).
    now exists pre, lab, id, post.
Qed.

Lemma cnr_is_first_label_match_witness :
  let pre := lit "Status: " in
  let id := lit "MHAU019999992015" in
  let post := lit " Court" in
  (length id = 16 /\ forallb upper_alnum id = true
   /\ forall i, i < length pre ->
                matches_at cnr_re (pre ++ lit "CNR No: " ++ id ++ post) i = false)
  /\ cnr (extract_case_overview (pre ++ lit "CNR No: " ++ id ++ post)) = Some id.
Proof.
  intros pre id post.
  assert (B : forall i, i < length pre ->
                        matches_at cnr_re (pre ++ lit "CNR No: " ++ id ++ post) i = false).
  { intros i Hi. do 8 (destruct i as [|i]; [vm_compute; reflexivity|]).
    simpl in Hi. lia. }
  split; [split; [reflexivity | split; [reflexivity | exact B]]|].
  exact (proj1 cnr_is_first_label_match pre id post eq_refl eq_refl B).
Defined.

End CnrFacts.

(** ** The case-status extractor: the purpose of a hearing *)

Module PurposeFacts.

Import PyFacts ReFacts HearingFacts CnrFacts.

Lemma spans_chr_inv p c g n g' :
  spans (Chr p) c g n g' ->
  exists a t, c_rest c = a :: t /\ p a = true /\ n = 1 /\ g' = g.
Proof. inversion 1; subst. now exists a, t. Qed.

Lemma spans_alt_inv r1 r2 c g n g' :
  spans (Alt r1 r2) c g n g' -> spans r1 c g n g' \/ spans r2 c g n g'.
Proof. inversion 1; subst; [now left | now right]. Qed.

Lemma spans_rep_inv p lo hi c g n g' :
  spans (Rep p lo hi) c g n g' ->
  lo <= n /\ n <= run_length p (c_rest c) /\ within hi n /\ g' = g.
Proof. inversion 1; now subst. Qed.

Lemma spans_wb_inv c g n g' :
  spans Wb c g n g' -> at_boundary c = true /\ n = 0 /\ g' = g.
Proof. inversion 1; now subst. Qed.

Section Completeness.

Variable R : Type.

(** A repeat that fails has failed for every allowed number of characters. *)
Lemma rep_complete (p : ascii -> bool) (k : cursor -> option R) :
  forall rest lo hi pos prev,
    rep p lo hi pos prev rest k = None ->
    forall n, lo <= n -> n <= run_length p rest -> within hi n ->
              k (advance (Cursor pos prev rest) n) = None.
Proof.
  assert (Stop : forall lo pos prev rest,
             (if lo =? 0 then k (Cursor pos prev rest) else None) = None ->
             lo <= 0 -> k (Cursor pos prev rest) = None).
  { intros lo pos prev rest H L. now replace lo with 0 in H by lia. }
  induction rest as [|a t IH]; intros lo hi pos prev H n Lo Run Hi.
  - cbn [run_length] in Run. assert (n = 0) by lia. subst n.
    cbn [rep] in H. cbn [advance]. now apply (Stop lo).
  - cbn [rep] in H. cbn [run_length] in Run.
    destruct (p a) eqn:Pa.
    + destruct (hi_allows hi) eqn:Ha; cbn [andb] in H.
      * destruct (rep p (pred lo) (option_map pred hi) (S pos) (Some a) t k) eqn:Rec;
          [discriminate H|]. cbn [or_else] in H.
        destruct n as [|m]; [cbn [advance]; now apply (Stop lo)|].
        cbn [advance]. unfold step. cbn [c_rest c_pos].
        apply (IH _ _ _ _ Rec); [lia | lia |].
        destruct hi as [h|]; cbn in *; [lia | exact I].
      * destruct hi as [[|h]|]; try discriminate Ha.
        cbn in Hi. assert (n = 0) by lia. subst n.
        cbn [advance]. now apply (Stop lo).
    + assert (n = 0) by lia. subst n. cbn [andb] in H.
      cbn [advance]. now apply (Stop lo).
Qed.

(** Completeness of the matcher: when it fails, the continuation fails at the
    end of every span of the pattern. *)
Lemma exec_complete (r : regex) :
  forall c g (k : cursor -> caps -> option R),
    exec r c g k = None ->
    forall n g', spans r c g n g' -> k (advance c n) g' = None.
Proof.
  induction r as [|p|r1 IH1 r2 IH2|r1 IH1 r2 IH2|p lo hi|i r IH|];
    intros c g k H n g' S; cbn [exec] in H.
  - apply spans_eps_inv in S as [-> ->]. exact H.
  - apply spans_chr_inv in S as (a & t & Hc & Pa & -> & ->).
    rewrite Hc, Pa in H. cbn [advance]. now rewrite (step_cons c a t Hc).
  - apply spans_cat_inv in S as (n1 & g1 & n2 & -> & S1 & S2).
    rewrite advance_add.
    apply (IH2 _ _ _ (IH1 _ _ _ H _ _ S1) _ _ S2).
  - destruct (exec r1 c g k) eqn:E1; [discriminate H|]. cbn [or_else] in H.
    apply spans_alt_inv in S as [S | S];
      [now apply (IH1 _ _ _ E1) | now apply (IH2 _ _ _ H)].
  - apply spans_rep_inv in S as (Lo & Run & Hi & ->).
    pose proof (rep_complete p (fun c' => k c' g) _ _ _ _ _ H n Lo Run Hi) as K.
    now destruct c.
  - apply spans_grp_inv in S as (g1 & -> & S).
    pose proof (IH _ _ _ H _ _ S) as K. cbv beta in K.
    rewrite pos_advance in K by exact (spans_length _ _ _ _ _ S).
    now replace (c_pos c + n - c_pos c) with n in K by lia.
  - apply spans_wb_inv in S as (B & -> & ->). now rewrite B in H.
Qed.

End Completeness.

Lemma match_at_complete (r : regex) (c : cursor) :
  match_at r c = None -> forall n g, ~ spans r c [] n g.
Proof.
  unfold match_at. intros H n g S.
  pose proof (exec_complete _ r _ _ _ H _ _ S) as K. discriminate K.
Qed.

Lemma derives_alt_inv r1 r2 w : derives (Alt r1 r2) w -> derives r1 w \/ derives r2 w.
Proof. inversion 1; subst; [now left | now right]. Qed.

Lemma purpose_text_icase (c : ascii) : icase purpose_char c = purpose_text_char c.
Proof. destruct c as [[] [] [] [] [] [] [] []]; reflexivity. Qed.

Lemma purpose_text_mark (c : ascii) : purpose_text_char c = true -> purpose_mark c = true.
Proof. destruct c as [[] [] [] [] [] [] [] []]; try reflexivity; discriminate. Qed.

Lemma in_all_chars (c : ascii) : In c (map ascii_of_nat (seq 0 256)).
Proof.
  rewrite <- (ascii_nat_embedding c). apply in_map, in_seq.
  pose proof (nat_ascii_bounded c). lia.
Qed.

Lemma is_char_i_upper_table :
  forallb (fun x =>
             if isalpha_ascii x
             then forallb (fun c => Bool.eqb (is_char_i x c)
                                             (eqb_char (upper_char c) (upper_char x)))
                          (map ascii_of_nat (seq 0 256))
             else true)
          (map ascii_of_nat (seq 0 256)) = true.
Proof. vm_compute. reflexivity. Qed.

(** Under [re.I] a letter of ASCII matches the characters with its upper
    case. *)
Lemma is_char_i_upper (x c : ascii) :
  isalpha_ascii x = true ->
  is_char_i x c = eqb_char (upper_char c) (upper_char x).
Proof.
  intro L. pose proof is_char_i_upper_table as T.
  rewrite forallb_forall in T. specialize (T x (in_all_chars x)).
  rewrite L in T.
  rewrite forallb_forall in T. specialize (T c (in_all_chars c)).
  now apply Bool.eqb_prop in T.
Qed.

Lemma reads_as_same_i (s : string) (w : str) :
  forallb isalpha_ascii (lit s) = true -> (reads_as s w <-> same_i s w).
Proof.
  unfold reads_as, same_i, lower. generalize (lit s). intro l. revert w.
  induction l as [|x l IH]; intros [|c w] L; cbn [map]; try (split; discriminate);
    [tauto|].
  cbn [forallb] in L. apply andb_true_iff in L as [Lx Ll].
  pose proof (is_char_i_upper x c Lx) as E. unfold is_char_i in E.
  split; intro H; injection H as Hc Hw; f_equal.
  - apply eqb_char_eq. rewrite E. now apply eqb_char_eq.
  - now apply IH.
  - apply eqb_char_eq. rewrite <- E. now apply eqb_char_eq.
  - now apply IH.
Qed.

(** A match of the purpose pattern at a position: the text from there is a
    label, then the text of group 2. *)
Lemma purpose_match_shape (c : cursor) (m : rmatch) :
  match_at purpose_re c = Some m ->
  exists lab body post,
    c_rest c = lab ++ body ++ post /\ purpose_label lab
    /\ 3 <= length body <= 60 /\ forallb purpose_mark body = true
    /\ group 2 m = body.
Proof.
  intro H. apply match_at_sound in H as (n & g & S & ->).
  unfold purpose_re in S. cbn [cat_all fold_right] in S.
  apply spans_cat_inv in S as (n1 & g1 & n1' & -> & S1 & S).
  apply spans_cat_inv in S as (n2 & g2 & n2' & -> & S2 & S).
  apply spans_cat_inv in S as (n3 & g3 & n3' & -> & S3 & S).
  apply spans_eps_inv in S as [-> ->].
  apply spans_grp_inv in S1 as (g1' & -> & S1).
  apply spans_grp_inv in S3 as (g3' & -> & S3).
  pose proof (spans_derives _ _ _ _ _ S1) as D1.
  pose proof (spans_derives _ _ _ _ _ S2) as D2.
  pose proof (spans_derives _ _ _ _ _ S3) as D3.
  rewrite !rest_advance in *.
  apply derives_rep_inv in D3 as (Lo & Hi & F). simpl in Hi.
  apply derives_sep in D2 as (w3 & sep & w4 & E2 & S3' & Hsep & S4).
  exists (firstn n1 (c_rest c) ++ firstn n2 (skipn n1 (c_rest c))),
         (firstn n3 (skipn n2 (skipn n1 (c_rest c)))),
         (skipn n3 (skipn n2 (skipn n1 (c_rest c)))).
  split; [|split; [|split; [|split]]].
  - rewrite <- app_assoc, !firstn_skipn. reflexivity.
  - exists (firstn n1 (c_rest c)), w3, sep, w4. rewrite E2.
    split; [reflexivity|]. split; [|now repeat split].
    apply derives_alt_inv in D1 as [D1 | D1]; [left | right];
      (apply reads_as_same_i; [reflexivity | now apply derives_chars_i]).
  - lia.
  - eapply forallb_impl; [|exact F]. intros a Pa.
    apply purpose_text_mark. now rewrite <- purpose_text_icase.
  - reflexivity.
Qed.

(** A purpose that is found is the trimmed text after a label. *)
Lemma purpose_found_shape (window p : str) :
  field purpose_re window = Some p ->
  exists body, labelled_purpose purpose_mark window body /\ p = strip body.
Proof.
  unfold field, search.
  destruct (search_from purpose_re 0 None window) as [m|] eqn:E; [|discriminate].
  cbn [option_map]. intros [= <-].
  apply search_from_sound in E as (i & Hi & Hm & _).
  apply purpose_match_shape in Hm as (lab & body & post & R & L & N & F & G).
  rewrite rest_advance in R. cbn [c_rest] in R.
  exists body. split; [|now rewrite G].
  exists (firstn i window), lab, post. repeat split; try assumption; try lia.
  now rewrite <- R, firstn_skipn.
Qed.

Lemma rest_after (c : cursor) (w t : str) :
  c_rest c = w ++ t -> c_rest (advance c (length w)) = t.
Proof.
  intro E. rewrite rest_advance, E, skipn_app, skipn_all, Nat.sub_diag. reflexivity.
Qed.

Lemma spans_chars_i (s : string) (w : str) :
  same_i s w ->
  forall c g t, c_rest c = w ++ t -> spans (chars_i s) c g (length w) g.
Proof.
  unfold chars_i, same_i. generalize (lit s). intros l. revert w.
  induction l as [|y l IH]; intros [|a w] E c g t Hc; try discriminate E.
  - constructor.
  - cbn [lower map] in E. injection E as Ea Ew.
    cbn [map cat_all fold_right]. cbn [app] in Hc.
    change (length (a :: w)) with (1 + length w).
    apply spans_cat with (g1 := g).
    + apply spans_chr with (a := a) (t := w ++ t); [exact Hc|].
      unfold is_char_i. rewrite Ea. apply eqb_char_refl.
    + apply (IH w Ew) with (t := t).
      cbn [advance]. now rewrite (step_cons c a (w ++ t) Hc).
Qed.

Lemma spans_rep_text (p : ascii -> bool) (lo : nat) (hi : option nat) (w : str) :
  forallb p w = true -> lo <= length w -> within hi (length w) ->
  forall c g t, c_rest c = w ++ t -> spans (Rep p lo hi) c g (length w) g.
Proof.
  intros F Lo Hi c g t Hc. constructor; [exact Lo | | exact Hi].
  rewrite Hc, run_length_app by exact F. lia.
Qed.

Lemma spans_sep (w3 sep w4 : str) :
  forallb isspace w3 = true ->
  (sep = [] \/ sep = lit ":" \/ sep = lit "-") ->
  forallb isspace w4 = true ->
  forall c g t,
    c_rest c = w3 ++ sep ++ w4 ++ t ->
    spans sep_re c g (length w3 + (length sep + (length w4 + 0))) g.
Proof.
  intros S3 Hsep S4 c g t Hc. unfold sep_re. cbn [cat_all fold_right].
  apply spans_cat with (g1 := g).
  - apply spans_rep_text with (t := sep ++ w4 ++ t); [exact S3 | lia | exact I | exact Hc].
  - pose proof (rest_after c w3 _ Hc) as Hc1.
    apply spans_cat with (g1 := g).
    + apply spans_rep_text with (t := w4 ++ t); [| lia | | exact Hc1].
      * destruct Hsep as [-> | [-> | ->]]; reflexivity.
      * destruct Hsep as [-> | [-> | ->]]; cbn; lia.
    + pose proof (rest_after _ sep _ Hc1) as Hc2.
      apply spans_cat with (g1 := g).
      * apply spans_rep_text with (t := t); [exact S4 | lia | exact I | exact Hc2].
      * constructor.
Qed.

(** The purpose pattern has a span wherever a label is followed by a text of
    the class. *)
Lemma spans_purpose (c : cursor) (lab body post : str) :
  c_rest c = lab ++ body ++ post -> purpose_label lab ->
  3 <= length body <= 60 -> forallb purpose_text_char body = true ->
  exists n g, spans purpose_re c [] n g.
Proof.
  intros Hc (w0 & w3 & sep & w4 & -> & W0 & S3 & Hsep & S4) N F.
  rewrite <- !app_assoc in Hc.
  assert (L : spans (Alt (chars_i "Purpose") (chars_i "Stage")) c [] (length w0) []).
  { destruct W0 as [W0 | W0]; [apply spans_alt_l | apply spans_alt_r];
      apply reads_as_same_i in W0; try reflexivity;
      now apply (spans_chars_i _ w0 W0) with (t := w3 ++ sep ++ w4 ++ body ++ post). }
  pose proof (rest_after c w0 _ Hc) as Hc1.
  pose proof (spans_sep w3 sep w4 S3 Hsep S4 _ [(1, firstn (length w0) (c_rest c))]
                (body ++ post) Hc1) as Sp.
  assert (Hc2 : c_rest (advance (advance c (length w0))
                                (length w3 + (length sep + (length w4 + 0))))
                = body ++ post).
  { rewrite !advance_add.
    apply rest_after with (w := []). cbn [app].
    rewrite <- (app_nil_r w4) in Hc1 at 1.
    rewrite <- !app_assoc in Hc1.
    pose proof (rest_after _ w3 _ Hc1) as A.
    pose proof (rest_after _ sep _ A) as B.
    pose proof (rest_after _ w4 _ B) as C. exact C. }
  eexists. eexists. unfold purpose_re. cbn [cat_all fold_right].
  eapply spans_cat; [apply spans_grp; exact L|].
  eapply spans_cat; [exact Sp|].
  eapply spans_cat; [|constructor].
  apply spans_grp.
  apply spans_rep_text with (w := body) (t := post); [| lia | cbn; lia | exact Hc2].
  eapply forallb_impl; [|exact F]. intros a Pa. now rewrite purpose_text_icase.
Qed.

(** No purpose is found only when the window has no label followed by a text
    of the class. *)
Lemma purpose_absent (window : str) :
  field purpose_re window = None ->
  forall body, ~ labelled_purpose purpose_text_char window body.
Proof.
  unfold field, search.
  destruct (search_from purpose_re 0 None window) as [m|] eqn:E; [discriminate|].
  intros _ body (pre & lab & post & W & L & N & F).
  assert (Hi : length pre <= length window).
  { rewrite W, length_app. lia. }
  pose proof (search_from_none purpose_re _ _ _ E (length pre) Hi) as M.
  assert (Hc : c_rest (advance (Cursor 0 None window) (length pre))
               = lab ++ body ++ post).
  { apply rest_after. exact W. }
  destruct (spans_purpose _ lab body post Hc L N F) as (n & g & S).
  exact (match_at_complete _ _ M n g S).
Qed.

Lemma purpose_sought (window : str) :
  purpose_sought_in window (field purpose_re window).
Proof.
  destruct (field purpose_re window) as [p|] eqn:E; cbn [purpose_sought_in].
  - now apply purpose_found_shape.
  - now apply purpose_absent.
Qed.

(** C7, amended. The hearings are the entries of the dates found by a
    left-to-right scan that resumes after the end of each date found: every
    start found is a DD-MM-YYYY substring, no two found overlap, and every
    DD-MM-YYYY substring of the text is found or starts inside one that is;
    when no two DD-MM-YYYY substrings overlap, there is exactly one entry per
    occurrence, in order, duplicates kept. The entry of a date found has that
    date, and its purpose is sought in the window from 60 characters before
    to 80 after the date: a purpose that is recorded is the trimmed text of 3
    to 60 characters of alphanumeric or punctuation text that follow a
    "Purpose" or "Stage" label of the window (the word in any case, then an
    optional colon or dash inside optional whitespace), and no purpose is
    recorded only when no label of the window is followed by three ASCII
    letters, digits, spaces or marks [,./()_-]; the entry is recorded either
    way. So "Next date 05-03-2025 Purpose: Arguments" gives the purpose
    "Arguments" and "05-03-2025 stage - Evidence" gives "Evidence"; a label
    that starts 80 characters after the date, a text without a label and a
    label followed by three accented letters give none. *)
Theorem hearings_follow_the_date_scan :
  (forall text,
      exists starts,
        hearings (extract_case_overview text) = map (entry_at text) starts
        /\ Forall (fun i => date_at text i = true) starts
        /\ StronglySorted (fun i j => i + 10 <= j) starts
        /\ (forall j, date_at text j = true ->
                      exists i, In i starts /\ i <= j < i + 10)
        /\ ((forall i j, date_at text i = true -> date_at text j = true ->
                         i < j -> i + 10 <= j) ->
            starts = occurrences text)
        /\ Forall2 (fun i h => h_date h = slice i (i + 10) text
                               /\ purpose_sought_in (window_of text i) (h_purpose h))
                   starts (hearings (extract_case_overview text)))
  /\ hearings (extract_case_overview (lit "Next date 05-03-2025 Purpose: Arguments"))
     = [{| h_date := lit "05-03-2025"; h_purpose := Some (lit "Arguments") |}]
  /\ hearings (extract_case_overview (lit "05-03-2025 stage - Evidence"))
     = [{| h_date := lit "05-03-2025"; h_purpose := Some (lit "Evidence") |}]
  /\ hearings (extract_case_overview
                 (lit "01-01-2024" ++ repeat "."%char 80 ++ lit "Purpose: Arguments"))
     = [{| h_date := lit "01-01-2024"; h_purpose := None |}]
  /\ hearings (extract_case_overview (lit "Hearing on 05-03-2025 before the court"))
     = [{| h_date := lit "05-03-2025"; h_purpose := None |}]
  /\ hearings (extract_case_overview
                 (lit "05-03-2025 Stage: " ++ repeat (ascii_of_nat 233) 3))
     = [{| h_date := lit "05-03-2025"; h_purpose := None |}].
Proof.
  split; [|repeat split; vm_compute; reflexivity].
  intro text. exists (scan_dates text 0).
  destruct (scan_dates_props text 0) as (A & B & C).
  assert (A' : Forall (fun i => date_at text i = true) (scan_dates text 0)).
  { eapply Forall_impl; [|exact A]. intros i [_ D]. now rewrite date_at_spec. }
  assert (C' : forall j, date_at text j = true ->
                         exists i, In i (scan_dates text 0) /\ i <= j < i + 10).
  { intros j D. apply C; [lia | now rewrite <- date_at_spec]. }
  split; [apply hearings_scan|].
  split; [exact A'|]. split; [exact B|]. split; [exact C'|]. split.
  - intro Apart. apply sorted_same_elements.
    + apply (sorted_weaken (fun i j => i + 10 <= j)); [intros; lia | exact B].
    + apply filter_sorted, seq_sorted.
    + intro x. rewrite occurrences_spec. rewrite Forall_forall in A'. split.
      * apply A'.
      * intro D. destruct (C' x D) as (i & Hi & R).
        destruct (Nat.eq_dec i x) as [-> | N]; [exact Hi|].
        pose proof (Apart i x (A' i Hi) D ltac:(lia)). lia.
  - rewrite hearings_scan. clear.
    induction (scan_dates text 0) as [|i l IH]; cbn [map]; constructor; [|exact IH].
    cbn [entry_at h_date h_purpose]. split; [reflexivity | apply purpose_sought].
Qed.

Lemma hearings_follow_the_date_scan_witness :
  let text := lit "Next date 05-03-2025 Purpose: Arguments" in
  date_at text 10 = true
  /\ exists starts,
       hearings (extract_case_overview text) = map (entry_at text) starts
       /\ exists i, In i starts /\ i <= 10 < i + 10.
Proof.
  intro text. split; [reflexivity|].
  destruct (proj1 hearings_follow_the_date_scan text) as (starts & E & _ & _ & C & _).
  exists starts. split; [exact E|]. apply C. reflexivity.
Defined.

End PurposeFacts.

(** ** The file-name utility *)

Module UtilFacts.

Import PyFacts ReFacts.

Section Squeeze.

Variable p : ascii -> bool.
Variable repl : str.

Lemma match_at_plus (pos : nat) (prev : option ascii) (rest : str) :
  match_at (plus p) (Cursor pos prev rest)
  = if 1 <=? run_length p rest
    then Some (Match pos (pos + run_length p rest) [])
    else None.
Proof.
  unfold match_at, plus. cbn [exec c_pos c_prev c_rest].
  rewrite (MatcherFacts.rep_greedy _ p (fun c' => Match pos (c_pos c') [])).
  destruct (1 <=? run_length p rest); [|reflexivity].
  rewrite pos_advance; [reflexivity | apply run_length_le].
Qed.

Lemma squeeze_after_run (t : str) :
  run_length p t = 0 -> squeeze_from p repl true t = squeeze_from p repl false t.
Proof.
  destruct t as [|c t]; simpl; [reflexivity|].
  destruct (p c); [discriminate | reflexivity].
Qed.

(** [re.sub] of a repeated class puts the replacement in the place of every
    maximal run of the class. *)
Lemma sub_plus_from :
  forall rest pos prev skip,
    skip = 0 \/ skip = run_length p rest ->
    sub_from (plus p) repl pos prev rest skip
    = squeeze_from p repl (negb (skip =? 0)) rest.
Proof.
  induction rest as [|a t IH]; intros pos prev skip Hs; [reflexivity|].
  assert (Next : forall pos' prev',
             sub_from (plus p) repl pos' prev' t (run_length p t)
             = squeeze_from p repl true t).
  { intros pos' prev'. rewrite IH by now right.
    destruct (run_length p t) eqn:E; simpl; [|reflexivity].
    symmetry. now apply squeeze_after_run. }
  destruct skip as [|n].
  - cbn [sub_from]. rewrite match_at_plus. simpl.
    destruct (p a) eqn:A; simpl.
    + replace (pos + S (run_length p t) - pos - 1) with (run_length p t) by lia.
      now rewrite Next.
    + rewrite IH by now left. reflexivity.
  - destruct Hs as [Hs | Hs]; [discriminate|].
    simpl in Hs. destruct (p a) eqn:A; [|discriminate].
    injection Hs as ->. cbn [sub_from]. simpl. rewrite A. apply Next.
Qed.

Lemma sub_plus (s : str) : sub (plus p) repl s = squeeze_from p repl false s.
Proof. unfold sub. now rewrite sub_plus_from by now left. Qed.

Lemma squeeze_keeps (q : ascii -> bool) (s : str) (b : bool) :
  forallb q repl = true -> (forall c, p c = false -> q c = true) ->
  forallb q (squeeze_from p repl b s) = true.
Proof.
  intros Hr Hq. revert b. induction s as [|c s IH]; intro b; simpl; [reflexivity|].
  destruct (p c) eqn:C.
  - destruct b; [apply IH|]. rewrite forallb_app, Hr, IH. reflexivity.
  - simpl. now rewrite (Hq c C), IH.
Qed.

Lemma squeeze_none (s : str) (b : bool) :
  forallb (fun c => negb (p c)) s = true -> squeeze_from p repl b s = s.
Proof.
  revert b. induction s as [|c s IH]; intros b H; simpl; [reflexivity|].
  simpl in H. apply andb_true_iff in H as [C S].
  destruct (p c); [discriminate|]. now rewrite IH.
Qed.

End Squeeze.

Section StripOf.

Variable chars : str.

Let drop (c : ascii) : bool := existsb (eqb_char c) chars.

Lemma lstrip_of_suffix (s : str) :
  exists w, s = w ++ lstrip_of chars s /\ forallb drop w = true.
Proof.
  induction s as [|c s (w & E & W)]; simpl.
  - now exists [].
  - fold (drop c). destruct (drop c) eqn:C.
    + exists (c :: w). simpl. rewrite C, W. split; [now f_equal | reflexivity].
    + now exists [].
Qed.

Lemma lstrip_of_head (s : str) (c : ascii) (t : str) :
  lstrip_of chars s = c :: t -> drop c = false.
Proof.
  induction s as [|x s IH]; simpl; [discriminate|].
  fold (drop x). destruct (drop x) eqn:X; [exact IH|].
  intros [= -> _]. exact X.
Qed.

Lemma lstrip_of_kept (s : str) :
  match s with c :: _ => drop c = false | [] => True end -> lstrip_of chars s = s.
Proof. destruct s as [|c s]; simpl; [reflexivity|]. fold (drop c). now intros ->. Qed.

Lemma lstrip_of_nil (s : str) : lstrip_of chars s = [] <-> forallb drop s = true.
Proof.
  induction s as [|c s IH]; simpl; [tauto|].
  fold (drop c). destruct (drop c); simpl; [exact IH|]. split; discriminate.
Qed.

Lemma rstrip_of_prefix (s : str) :
  exists w, s = rstrip_of chars s ++ w /\ forallb drop w = true.
Proof.
  unfold rstrip_of. destruct (lstrip_of_suffix (rev s)) as (w & E & W).
  exists (rev w). split.
  - rewrite <- rev_app_distr, <- E. symmetry. apply rev_involutive.
  - rewrite forallb_forall in *. intros x Hx. apply W. now apply in_rev.
Qed.

(** What [strip] leaves is a part of the text. *)
Lemma strip_of_infix (s : str) :
  exists w1 w2, s = w1 ++ strip_of chars s ++ w2
                /\ forallb drop w1 = true /\ forallb drop w2 = true.
Proof.
  destruct (lstrip_of_suffix s) as (w1 & E1 & W1).
  destruct (rstrip_of_prefix (lstrip_of chars s)) as (w2 & E2 & W2).
  exists w1, w2. unfold strip_of. now rewrite <- E2.
Qed.

Lemma strip_of_last (s : str) (c : ascii) :
  hd_error (rev (strip_of chars s)) = Some c -> drop c = false.
Proof.
  unfold strip_of, rstrip_of. rewrite rev_involutive.
  destruct (lstrip_of chars (rev (lstrip_of chars s))) as [|x t] eqn:E;
    [discriminate|].
  intros [= ->]. apply (lstrip_of_head _ _ _ E).
Qed.

Lemma strip_of_head (s : str) (c : ascii) :
  hd_error (strip_of chars s) = Some c -> drop c = false.
Proof.
  intro H. destruct (rstrip_of_prefix (lstrip_of chars s)) as (w & E & _).
  fold (strip_of chars s) in E.
  destruct (strip_of chars s) as [|x t]; [discriminate|].
  injection H as ->. simpl in E. apply (lstrip_of_head _ _ _ E).
Qed.

Lemma strip_of_kept (s : str) :
  (forall c, hd_error s = Some c -> drop c = false) ->
  (forall c, hd_error (rev s) = Some c -> drop c = false) ->
  strip_of chars s = s.
Proof.
  intros Hh Hl. unfold strip_of, rstrip_of.
  rewrite (lstrip_of_kept s).
  - rewrite (lstrip_of_kept (rev s)); [apply rev_involutive|].
    destruct (rev s) as [|c t]; [exact I | now apply Hl].
  - destruct s as [|c t]; [exact I | now apply Hh].
Qed.

Lemma strip_of_nil (s : str) : strip_of chars s = [] <-> forallb drop s = true.
Proof.
  split.
  - intro E. destruct (strip_of_infix s) as (w1 & w2 & Es & W1 & W2).
    rewrite E in Es. simpl in Es. rewrite Es, forallb_app, W1, W2. reflexivity.
  - intro H. unfold strip_of, rstrip_of.
    now rewrite (proj2 (lstrip_of_nil s) H).
Qed.

End StripOf.

Lemma filename_underscore : filename_char underscore = true.
Proof. reflexivity. Qed.

Lemma drop_underscore (c : ascii) :
  existsb (eqb_char c) (lit "_") = is_underscore c.
Proof. unfold is_underscore, underscore. simpl. apply orb_false_r. Qed.

Lemma sanitize_as_squeeze (name : str) :
  sanitize_filename name
  = strip_of (lit "_")
      (squeeze_from (fun c => negb (filename_char c)) (lit "_") false name).
Proof. unfold sanitize_filename, unsafe_re. now rewrite sub_plus. Qed.

Lemma forallb_infix {A} (q : A -> bool) (a b c : list A) :
  forallb q (a ++ b ++ c) = true -> forallb q b = true.
Proof.
  rewrite !forallb_app. intro H.
  apply andb_true_iff in H as [_ H]. now apply andb_true_iff in H as [H _].
Qed.

Lemma sanitize_clean (name : str) : clean_name (sanitize_filename name).
Proof.
  rewrite sanitize_as_squeeze.
  set (sq := squeeze_from _ _ _ _). repeat split.
  - destruct (strip_of_infix (lit "_") sq) as (w1 & w2 & E & _ & _).
    apply (forallb_infix filename_char w1 _ w2). rewrite <- E.
    apply squeeze_keeps; [reflexivity|].
    intros c C. now apply negb_false_iff in C.
  - intro H. apply strip_of_head in H. discriminate H.
  - intro H. apply strip_of_last in H. discriminate H.
Qed.

Lemma filename_char_not_space (c : ascii) : filename_char c = true -> isspace c = false.
Proof. destruct c as [[] [] [] [] [] [] [] []]; try reflexivity; discriminate. Qed.

(** X1. Whatever the name, [sanitize_filename] returns a text of word
    characters, dashes and periods with no underscore at either end; so the
    result has no path separator and no whitespace. *)
Theorem sanitize_filename_safe (name : str) :
  clean_name (sanitize_filename name)
  /\ forall c, In c (sanitize_filename name) ->
               c <> "/"%char /\ isspace c = false.
Proof.
  pose proof (sanitize_clean name) as C. split; [exact C|].
  destruct C as (F & _). rewrite forallb_forall in F.
  intros c Hc. specialize (F c Hc). split.
  - intros ->. discriminate F.
  - now apply filename_char_not_space.
Qed.

Lemma clean_name_fixed (name : str) : clean_name name -> sanitize_filename name = name.
Proof.
  intros (F & H & L). rewrite sanitize_as_squeeze.
  rewrite squeeze_none.
  - apply strip_of_kept; intros c E; rewrite drop_underscore.
    + destruct (is_underscore c) eqn:U; [|reflexivity].
      apply eqb_char_eq in U. subst c. now destruct H.
    + destruct (is_underscore c) eqn:U; [|reflexivity].
      apply eqb_char_eq in U. subst c. now destruct L.
  - rewrite forallb_forall in *. intros c Hc. now rewrite negb_involutive, F.
Qed.

(** X2. [sanitize_filename] is idempotent, and the names it leaves unchanged
    are exactly those of word characters, dashes and periods with no
    underscore at either end. *)
Theorem sanitize_filename_idempotent :
  (forall name, sanitize_filename (sanitize_filename name) = sanitize_filename name)
  /\ (forall name, sanitize_filename name = name <-> clean_name name).
Proof.
  split.
  - intro name. apply clean_name_fixed, sanitize_clean.
  - intro name. split; [|apply clean_name_fixed].
    intro E. rewrite <- E. apply sanitize_clean.
Qed.

Lemma forallb_same {A} (f g : A -> bool) (l : list A) :
  (forall a, f a = g a) -> forallb f l = forallb g l.
Proof.
  intro H. induction l as [|a l IH]; simpl; [reflexivity|]. now rewrite H, IH.
Qed.

Lemma squeeze_underscores (s : str) (b : bool) :
  forallb is_underscore
    (squeeze_from (fun c => negb (filename_char c)) (lit "_") b s)
  = forallb (fun c => is_underscore c || negb (filename_char c)) s.
Proof.
  revert b. induction s as [|c s IH]; intro b; simpl; [reflexivity|].
  destruct (filename_char c) eqn:C; simpl.
  - rewrite IH, orb_false_r. reflexivity.
  - rewrite orb_true_r. destruct b; simpl; apply IH.
Qed.

(** X3. The result of [sanitize_filename] is empty exactly when the name has
    only underscores and characters that a file name does not keep (the empty
    name among them). *)
Theorem sanitize_filename_empty (name : str) :
  sanitize_filename name = []
  <-> forallb (fun c => is_underscore c || negb (filename_char c)) name = true.
Proof.
  rewrite sanitize_as_squeeze, strip_of_nil.
  rewrite (forallb_same _ is_underscore _ drop_underscore).
  now rewrite squeeze_underscores.
Qed.

End UtilFacts.

(** ** The date helpers *)

Module DateFacts.

Ltac Zify.zify_post_hook ::= Z.to_euclidean_division_equations.

Lemma days_in_month_bounds (y m : N) : (28 <= days_in_month y m <= 31)%N.
Proof.
  unfold days_in_month.
  destruct (m =? 2)%N; [destruct (is_leap y); lia|].
  destruct ((m =? 4) || (m =? 6) || (m =? 9) || (m =? 11))%N; lia.
Qed.

Lemma days_in_december (y : N) : days_in_month y 12 = 31%N.
Proof. reflexivity. Qed.

Lemma date_eq (a b : date) :
  d_year a = d_year b -> d_month a = d_month b -> d_day a = d_day b -> a = b.
Proof. destruct a, b. simpl. now intros -> -> ->. Qed.

(** The day after a calendar date is a later calendar date; only the last
    date has none. *)
Lemma next_day_valid (d : date) :
  valid_date d ->
  match next_day d with
  | Ok d' => valid_date d' /\ date_lt d d'
  | Raise e => e = OverflowError /\ d = last_date
  end.
Proof.
  unfold valid_date, next_day, date_lt. intros (Y & M & D).
  pose proof (days_in_month_bounds (d_year d) (d_month d + 1)) as B1.
  pose proof (days_in_month_bounds (d_year d + 1) 1) as B2.
  destruct (N.ltb_spec (d_day d) (days_in_month (d_year d) (d_month d))); cbn.
  - repeat split; lia.
  - destruct (N.ltb_spec (d_month d) 12); cbn.
    + repeat split; lia.
    + destruct (N.ltb_spec (d_year d) 9999); cbn.
      * repeat split; lia.
      * split; [reflexivity|].
        assert (Em : d_month d = 12%N) by lia.
        rewrite Em, days_in_december in *.
        apply date_eq; simpl; lia.
Qed.

(** The clock moved to IST: the same date before 18:30 UTC and the next one
    from then on, with the time of day moved by 5:30. *)
Lemma today_ist_spec (utcnow : datetime) :
  valid_clock utcnow ->
  match today_ist utcnow with
  | Ok t =>
      valid_clock t
      /\ ((minute_of_day utcnow < 1110)%N ->
          dt_date t = dt_date utcnow
          /\ minute_of_day t = (minute_of_day utcnow + 330)%N)
      /\ ((1110 <= minute_of_day utcnow)%N ->
          next_day (dt_date utcnow) = Ok (dt_date t)
          /\ minute_of_day t = (minute_of_day utcnow - 1110)%N)
  | Raise e =>
      e = OverflowError /\ dt_date utcnow = last_date
      /\ (1110 <= minute_of_day utcnow)%N
  end.
Proof.
  unfold valid_clock, today_ist, minute_of_day. intros (V & H & M).
  destruct (N.ltb_spec (dt_hour utcnow * 60 + dt_minute utcnow + 330) 1440); cbn.
  - split; [split; [exact V | lia]|].
    split; intro L; [split; [reflexivity | lia] | lia].
  - pose proof (next_day_valid (dt_date utcnow) V) as N.
    destruct (next_day (dt_date utcnow)) as [d'|e]; cbn.
    + destruct N as [V' _]. split; [split; [exact V' | lia]|].
      split; intro L; [lia | split; [reflexivity | lia]].
    + destruct N as [-> E]. repeat split; [exact E | lia].
Qed.

(** A valid clock fails to give today's date only on the last evening of the
    calendar, and tomorrow's date only from the evening before. *)
Lemma date_str_ist_raises (utcnow : datetime) :
  valid_clock utcnow ->
  (date_str_ist utcnow 0 = Raise OverflowError
   <-> dt_date utcnow = last_date /\ (1110 <= minute_of_day utcnow)%N)
  /\ (date_str_ist utcnow 1 = Raise OverflowError
      <-> dt_date utcnow = last_date
          \/ (next_day (dt_date utcnow) = Ok last_date
              /\ (1110 <= minute_of_day utcnow)%N)).
Proof.
  intro V. pose proof (today_ist_spec utcnow V) as T.
  unfold date_str_ist.
  destruct (today_ist utcnow) as [t|e]; cbn.
  - destruct T as (Vt & Early & Late).
    pose proof (next_day_valid (dt_date t) (proj1 Vt)) as N.
    split.
    + split; [discriminate|]. intros [E L].
      destruct (Late L) as [Nx _]. rewrite E in Nx. discriminate Nx.
    + destruct (next_day (dt_date t)) as [d'|e] eqn:Nt; cbn.
      * split; [discriminate|]. intros [E | [Nx L]].
        -- destruct (N.lt_ge_cases (minute_of_day utcnow) 1110) as [L | L].
           ++ destruct (Early L) as [Ed _]. rewrite Ed, E in Nt. discriminate Nt.
           ++ destruct (Late L) as [Nx _]. rewrite E in Nx. discriminate Nx.
        -- destruct (Late L) as [Nx' _]. rewrite Nx in Nx'. injection Nx' as Eq.
           rewrite <- Eq in Nt. discriminate Nt.
      * destruct N as [-> Et]. split; [intros _|reflexivity].
        destruct (N.lt_ge_cases (minute_of_day utcnow) 1110) as [L | L].
        -- left. destruct (Early L) as [Ed _]. now rewrite <- Ed.
        -- right. destruct (Late L) as [Nx _]. rewrite Et in Nx. now split.
  - destruct T as (-> & E & L). split; (split; [intros _|reflexivity]).
    + now split.
    + now left.
Qed.

Lemma digit_inj (a b : N) : (a < 10)%N -> (b < 10)%N -> digit a = digit b -> a = b.
Proof.
  unfold digit. intros A B E.
  rewrite !N.mod_small in E by assumption.
  apply (f_equal N_of_ascii) in E.
  rewrite !N_ascii_embedding in E by lia. lia.
Qed.

Lemma digit_mod (n : N) : digit n = digit (n mod 10).
Proof. unfold digit. now rewrite N.Div0.mod_mod. Qed.

Lemma pad2_inj (a b : N) : (a < 100)%N -> (b < 100)%N -> pad2 a = pad2 b -> a = b.
Proof.
  unfold pad2. intros A B E. injection E as E1 E0.
  rewrite (digit_mod a), (digit_mod b) in E0.
  apply digit_inj in E1; [|lia|lia].
  apply digit_inj in E0; [|lia|lia]. lia.
Qed.

Lemma pad4_inj (a b : N) : (a < 10000)%N -> (b < 10000)%N -> pad4 a = pad4 b -> a = b.
Proof.
  unfold pad4. intros A B E. injection E as E3 E2 E1 E0.
  rewrite (digit_mod (a / 100)), (digit_mod (b / 100)) in E2.
  rewrite (digit_mod (a / 10)), (digit_mod (b / 10)) in E1.
  rewrite (digit_mod a), (digit_mod b) in E0.
  apply digit_inj in E3; [|lia|lia].
  apply digit_inj in E2; [|lia|lia].
  apply digit_inj in E1; [|lia|lia].
  apply digit_inj in E0; [|lia|lia]. lia.
Qed.

(** Two calendar dates are rendered alike only when they are the same date. *)
Lemma strftime_dmy_inj (a b : date) :
  valid_date a -> valid_date b -> strftime_dmy a = strftime_dmy b -> a = b.
Proof.
  unfold valid_date. intros (Ya & Ma & Da) (Yb & Mb & Db) E.
  pose proof (days_in_month_bounds (d_year a) (d_month a)).
  pose proof (days_in_month_bounds (d_year b) (d_month b)).
  unfold strftime_dmy in E.
  change (pad2 (d_day a) ++ lit "-" ++ pad2 (d_month a) ++ lit "-" ++ pad4 (d_year a))
    with ([digit (d_day a / 10); digit (d_day a); "-"%char;
           digit (d_month a / 10); digit (d_month a); "-"%char] ++ pad4 (d_year a)) in E.
  change (pad2 (d_day b) ++ lit "-" ++ pad2 (d_month b) ++ lit "-" ++ pad4 (d_year b))
    with ([digit (d_day b / 10); digit (d_day b); "-"%char;
           digit (d_month b / 10); digit (d_month b); "-"%char] ++ pad4 (d_year b)) in E.
  injection E as D1 D0 M1 M0 Y3 Y2 Y1 Y0.
  apply date_eq.
  - apply pad4_inj; [lia | lia | unfold pad4; now rewrite Y3, Y2, Y1, Y0].
  - apply pad2_inj; [lia | lia | unfold pad2; now rewrite M1, M0].
  - apply pad2_inj; [lia | lia | unfold pad2; now rewrite D1, D0].
Qed.

Lemma date_lt_irrefl (d : date) : ~ date_lt d d.
Proof. unfold date_lt. lia. Qed.

Lemma date_lt_trans (a b c : date) : date_lt a b -> date_lt b c -> date_lt a c.
Proof. unfold date_lt. lia. Qed.

(** X4. Adding days to a calendar date gives a calendar date, the same one for
    no days and a later one otherwise; the only failure is [OverflowError]. *)
Theorem add_days_keeps_calendar (n : nat) (d : date) :
  valid_date d ->
  match add_days n d with
  | Ok d' => valid_date d' /\ (n = 0 -> d' = d) /\ (0 < n -> date_lt d d')
  | Raise e => e = OverflowError
  end.
Proof.
  revert d. induction n as [|n IH]; intros d V; cbn [add_days].
  - split; [exact V|]. split; [reflexivity | lia].
  - pose proof (next_day_valid d V) as N.
    destruct (next_day d) as [d1|e]; cbn [bind]; [|apply N].
    destruct N as [V1 L1]. specialize (IH d1 V1).
    destruct (add_days n d1) as [d'|e]; [|exact IH].
    destruct IH as (V' & Same & Later). split; [exact V'|]. split; [lia|].
    intros _. destruct n as [|n].
    + now rewrite (Same eq_refl).
    + apply (date_lt_trans d d1 d'); [exact L1 | apply Later; lia].
Qed.

Lemma add_days_keeps_calendar_witness :
  let d := {| d_year := 2024; d_month := 2; d_day := 28 |} in
  valid_date d
  /\ add_days 2 d = Ok {| d_year := 2024; d_month := 3; d_day := 1 |}
  /\ exists d', add_days 2 d = Ok d' /\ valid_date d'.
Proof.
  intro d.
  assert (V : valid_date d) by (unfold valid_date; cbn; lia).
  assert (E : add_days 2 d = Ok {| d_year := 2024; d_month := 3; d_day := 1 |})
    by reflexivity.
  split; [exact V|]. split; [exact E|].
  pose proof (add_days_keeps_calendar 2 d V) as H. rewrite E in H.
  eexists. split; [reflexivity | apply H].
Defined.

Lemma add_days_raise (n : nat) (d : date) (e : exn) :
  add_days n d = Raise e -> e = OverflowError.
Proof.
  revert d. induction n as [|n IH]; intro d; cbn [add_days]; [discriminate|].
  unfold next_day.
  destruct (d_day d <? _)%N; cbn [bind]; [apply IH|].
  destruct (d_month d <? 12)%N; cbn [bind]; [apply IH|].
  destruct (d_year d <? 9999)%N; cbn [bind]; [apply IH|].
  now intros [= <-].
Qed.

Lemma next_day_is_last (d : date) :
  valid_date d ->
  (next_day d = Ok last_date
   <-> d = {| d_year := 9999; d_month := 12; d_day := 30 |}).
Proof.
  intro V. split; [|now intros ->].
  unfold next_day, last_date.
  destruct (N.ltb_spec (d_day d) (days_in_month (d_year d) (d_month d))).
  - intros [= Y M D]. apply date_eq; simpl; lia.
  - destruct (N.ltb_spec (d_month d) 12); [discriminate|].
    destruct (N.ltb_spec (d_year d) 9999); discriminate.
Qed.

(** X5. With a valid clock the date helper fails only by [OverflowError], and
    only at the end of the calendar: today's date exists unless the clock
    shows 9999-12-31 at 18:30 UTC or later, tomorrow's unless it shows
    9999-12-31, or 9999-12-30 at 18:30 UTC or later. *)
Theorem date_str_ist_fails_only_at_calendar_end (utcnow : datetime) :
  valid_clock utcnow ->
  (forall days e, date_str_ist utcnow days = Raise e -> e = OverflowError)
  /\ ((exists t, date_str_ist utcnow 0 = Ok t)
      <-> ~ (dt_date utcnow = last_date /\ (1110 <= minute_of_day utcnow)%N))
  /\ ((exists t, date_str_ist utcnow 1 = Ok t)
      <-> ~ (dt_date utcnow = last_date
             \/ (dt_date utcnow = {| d_year := 9999; d_month := 12; d_day := 30 |}
                 /\ (1110 <= minute_of_day utcnow)%N))).
Proof.
  intro V.
  assert (Only : forall days e, date_str_ist utcnow days = Raise e -> e = OverflowError).
  { intros days e. unfold date_str_ist.
    pose proof (today_ist_spec utcnow V) as T.
    destruct (today_ist utcnow) as [t|e']; cbn [bind].
    - destruct (add_days days (dt_date t)) as [d'|e'] eqn:A; cbn [bind]; [discriminate|].
      intros [= <-]. apply (add_days_raise _ _ _ A).
    - intros [= <-]. apply T. }
  destruct (date_str_ist_raises utcnow V) as [R0 R1].
  rewrite <- (next_day_is_last (dt_date utcnow) (proj1 V)).
  split; [exact Only|]. split.
  - rewrite <- R0. split.
    + intros [t E] F. rewrite E in F. discriminate F.
    + intro N. destruct (date_str_ist utcnow 0) as [t|e] eqn:E; [now exists t|].
      destruct N. now rewrite (Only 0 e E).
  - rewrite <- R1. split.
    + intros [t E] F. rewrite E in F. discriminate F.
    + intro N. destruct (date_str_ist utcnow 1) as [t|e] eqn:E; [now exists t|].
      destruct N. now rewrite (Only 1 e E).
Qed.

Lemma date_str_ist_fails_only_at_calendar_end_witness :
  let now := {| dt_date := last_date; dt_hour := 18; dt_minute := 29 |} in
  valid_clock now
  /\ (exists t, date_str_ist now 0 = Ok t)
  /\ ~ (exists t, date_str_ist now 1 = Ok t).
Proof.
  intro now.
  assert (V : valid_clock now) by (unfold valid_clock, valid_date; cbn; lia).
  split; [exact V|].
  destruct (date_str_ist_fails_only_at_calendar_end now V) as (_ & T0 & T1).
  split.
  - apply T0. intros [_ L]. unfold minute_of_day in L. cbn in L. lia.
  - intro E. apply T1 in E. apply E. now left.
Defined.

(** X6. Calendar dates are rendered alike only when they are the same date,
    so comparing rendered dates compares dates; in particular today's and
    tomorrow's rendered dates always differ. *)
Theorem rendered_dates_tell_days_apart :
  (forall a b, valid_date a -> valid_date b ->
               (strftime_dmy a = strftime_dmy b <-> a = b))
  /\ (forall utcnow t0 t1,
        valid_clock utcnow ->
        date_str_ist utcnow 0 = Ok t0 -> date_str_ist utcnow 1 = Ok t1 ->
        t0 <> t1).
Proof.
  split.
  - intros a b Va Vb. split; [now apply strftime_dmy_inj | now intros ->].
  - intros utcnow t0 t1 V. unfold date_str_ist.
    pose proof (today_ist_spec utcnow V) as T.
    destruct (today_ist utcnow) as [t|e]; cbn [bind add_days]; [|discriminate].
    destruct T as ((Vt & _) & _).
    pose proof (next_day_valid (dt_date t) Vt) as N.
    destruct (next_day (dt_date t)) as [d'|e]; cbn [bind]; [|discriminate].
    destruct N as [V' L]. intros [= <-] [= <-] E.
    apply strftime_dmy_inj in E; [|assumption|assumption].
    rewrite <- E in L. now apply date_lt_irrefl in L.
Qed.

Lemma rendered_dates_tell_days_apart_witness :
  let now := {| dt_date := {| d_year := 2025; d_month := 3; d_day := 4 |};
                dt_hour := 18; dt_minute := 30 |} in
  valid_clock now
  /\ date_str_ist now 0 = Ok (lit "05-03-2025")
  /\ date_str_ist now 1 = Ok (lit "06-03-2025")
  /\ lit "05-03-2025" <> lit "06-03-2025".
Proof.
  intro now.
  assert (V : valid_clock now) by (unfold valid_clock, valid_date; cbn; lia).
  split; [exact V|]. split; [reflexivity|]. split; [reflexivity|].
  exact (proj2 rendered_dates_tell_days_apart now _ _ V eq_refl eq_refl).
Defined.

End DateFacts.

(** ** The case-status extractor: case number and purposes *)

Module FieldFacts.

Import PyFacts ReFacts CnrFacts HearingFacts UtilFacts.

(** A match of a pattern of the form [(label) sep (value)]: group 2 is a text
    the value pattern takes. *)
Lemma labelled_match (label value : regex) (c : cursor) (m : rmatch) :
  match_at (cat_all [Grp 1 label; sep_re; Grp 2 value]) c = Some m ->
  derives value (group 2 m).
Proof.
  intro H. apply match_at_sound in H as (n & g & S & ->).
  cbn [cat_all fold_right] in S.
  apply spans_cat_inv in S as (n1 & g1 & n1' & -> & S1 & S).
  apply spans_cat_inv in S as (n2 & g2 & n2' & -> & S2 & S).
  apply spans_cat_inv in S as (n3 & g3 & n3' & -> & S3 & S).
  apply spans_eps_inv in S as [-> ->].
  apply spans_grp_inv in S3 as (g3' & -> & S3).
  apply spans_derives in S3. unfold group. cbn. exact S3.
Qed.

Lemma field_labelled (label value : regex) (text v : str) :
  field (cat_all [Grp 1 label; sep_re; Grp 2 value]) text = Some v ->
  exists w, derives value w /\ v = strip w.
Proof.
  unfold field, search.
  destruct (search_from _ 0 None text) as [m|] eqn:E; [|discriminate].
  cbn [option_map]. intros [= <-].
  apply search_from_sound in E as (i & _ & Hm & _).
  apply labelled_match in Hm. now exists (group 2 m).
Qed.

Lemma strip_trimmed (s : str) : trimmed (strip s).
Proof.
  split.
  - intros c t E. apply (strip_head s c t E).
  - intros t c E. apply (strip_last s t c E).
Qed.

Lemma icase_case_prefix (c : ascii) :
  icase (fun c => isalpha_ascii c || one_of "./-" c || isspace c) c
  = (isalpha_ascii c || one_of "./-" c || isspace c).
Proof. destruct c as [[] [] [] [] [] [] [] []]; reflexivity. Qed.

Lemma isdecimal_not_space (c : ascii) : isdecimal c = true -> isspace c = false.
Proof. destruct c as [[] [] [] [] [] [] [] []]; try reflexivity; discriminate. Qed.

Lemma forallb_suffix {A} (q : A -> bool) (a b : list A) :
  forallb q (a ++ b) = true -> forallb q b = true.
Proof. rewrite forallb_app. intro H. now apply andb_true_iff in H as [_ H]. Qed.

(** The value of the case-number pattern, stripped. *)
Lemma case_number_value (w : str) :
  derives (cat_all [star (icase (fun c => isalpha_ascii c || one_of "./-" c || isspace c));
                    plus isdecimal; Chr (is_char "/"); times isdecimal 4]) w ->
  case_number_shape (strip w).
Proof.
  cbn [cat_all fold_right]. intro D.
  apply derives_cat_inv in D as (pre & r1 & -> & Dp & D).
  apply derives_cat_inv in D as (num & r2 & -> & Dn & D).
  apply derives_cat_inv in D as (sl & r3 & -> & Ds & D).
  apply derives_cat_inv in D as (year & r4 & -> & Dy & D).
  apply derives_eps_inv in D as ->. rewrite app_nil_r.
  apply derives_star in Dp.
  apply derives_rep_inv in Dn as (Ln & _ & Fn).
  apply derives_chr_inv in Ds as (a & -> & Pa). apply eqb_char_eq in Pa. subst a.
  apply derives_rep_inv in Dy as (Ly & Hy & Fy). simpl in Hy.
  destruct num as [|n0 num]; [simpl in Ln; lia|].
  assert (N0 : isspace n0 = false).
  { simpl in Fn. apply andb_true_iff in Fn as [F0 _]. now apply isdecimal_not_space. }
  destruct (@exists_last _ year) as (y' & z & Ey).
  { intros ->. simpl in Ly. lia. }
  assert (Z : isspace z = false).
  { rewrite Ey in Fy. apply forallb_suffix in Fy. simpl in Fy.
    rewrite andb_true_r in Fy. now apply isdecimal_not_space. }
  assert (S : strip (pre ++ (n0 :: num) ++ ["/"%char] ++ year)
              = lstrip pre ++ (n0 :: num) ++ lit "/" ++ year).
  { unfold strip. cbn [app]. rewrite lstrip_app_stop by exact N0.
    rewrite Ey.
    replace (lstrip pre ++ n0 :: num ++ "/"%char :: y' ++ [z])
      with ((lstrip pre ++ n0 :: num ++ "/"%char :: y') ++ z :: [])
      by (rewrite <- !app_assoc; cbn [app]; now rewrite <- app_assoc).
    rewrite rstrip_app_stop by exact Z.
    rewrite <- !app_assoc. cbn [app]. now rewrite <- app_assoc. }
  rewrite S. exists (lstrip pre), (n0 :: num), year. repeat split.
  - destruct (lstrip_suffix pre) as (ws & E & _).
    rewrite E in Dp. apply forallb_suffix in Dp.
    eapply forallb_impl; [|exact Dp]. intros a Pa. now rewrite <- icase_case_prefix.
  - discriminate.
  - exact Fn.
  - lia.
  - exact Fy.
Qed.

Lemma case_number_found (text cn : str) :
  case_number (extract_case_overview text) = Some cn ->
  case_number_shape cn /\ trimmed cn.
Proof.
  cbn [extract_case_overview case_number]. unfold case_no_re. intro H.
  apply field_labelled in H as (w & D & ->).
  split; [now apply case_number_value | apply strip_trimmed].
Qed.

Lemma shape_nonempty (s : str) : case_number_shape s -> s <> [].
Proof.
  intros (pre & num & year & -> & _ & N & _) E.
  apply app_eq_nil in E as [_ E]. apply app_eq_nil in E as [E _]. contradiction.
Qed.

Lemma icase_purpose_char (c : ascii) : icase purpose_char c = purpose_char c.
Proof. destruct c as [[] [] [] [] [] [] [] []]; reflexivity. Qed.

Lemma strip_infix (s : str) : exists w1 w2, s = w1 ++ strip s ++ w2.
Proof.
  destruct (lstrip_suffix s) as (w1 & E1 & _).
  destruct (rstrip_prefix (lstrip s)) as (w2 & E2 & _).
  exists w1, w2. unfold strip. now rewrite <- E2.
Qed.

(** A purpose that is found has at most 60 characters of the class and no
    whitespace at either end. *)
Lemma purpose_found (window p : str) :
  field purpose_re window = Some p ->
  length p <= 60 /\ forallb purpose_char p = true /\ trimmed p.
Proof.
  unfold purpose_re. intro H. apply field_labelled in H as (w & D & ->).
  apply derives_rep_inv in D as (_ & Hi & F). simpl in Hi.
  destruct (strip_infix w) as (w1 & w2 & E).
  repeat split.
  - apply (f_equal (@length ascii)) in E. rewrite !length_app in E. lia.
  - rewrite E in F. apply forallb_infix in F.
    eapply forallb_impl; [|exact F]. intros a Pa. now rewrite <- icase_purpose_char.
  - intros c t Ec. apply (strip_head w c t Ec).
  - intros t c Ec. apply (strip_last w t c Ec).
Qed.

(** X7. A case number that is found has the form prefix, digits, slash, four
    digits, the prefix made of letters, periods, slashes, dashes and
    whitespace; it has no whitespace at either end and is not empty, so it
    becomes the search key whenever the command line gives no complete case
    type, number and year. *)
Theorem case_number_has_number_and_year :
  forall text cn,
    case_number (extract_case_overview text) = Some cn ->
    case_number_shape cn /\ trimmed cn /\ cn <> []
    /\ forall args,
         truthy (a_case_type args) && truthy (a_case_number args)
         && truthy (a_year args) = false ->
         case_key_of args (Some (extract_case_overview text)) = Some cn.
Proof.
  intros text cn H. destruct (case_number_found text cn H) as [S T].
  pose proof (shape_nonempty cn S) as N.
  repeat split; try assumption; try apply T.
  intros args A. unfold case_key_of. rewrite A, H.
  destruct cn; [contradiction | reflexivity].
Qed.

Lemma case_number_has_number_and_year_witness :
  let text := lit "Case No: OS 45/2023 Court: Civil Court" in
  case_number (extract_case_overview text) = Some (lit "OS 45/2023")
  /\ case_number_shape (lit "OS 45/2023").
Proof.
  intro text.
  assert (E : case_number (extract_case_overview text) = Some (lit "OS 45/2023"))
    by (vm_compute; reflexivity).
  split; [exact E|].
  apply (case_number_has_number_and_year text (lit "OS 45/2023") E).
Defined.

Lemma purpose_char_mark (c : ascii) : purpose_char c = true -> purpose_mark c = true.
Proof. destruct c as [[] [] [] [] [] [] [] []]; try reflexivity; discriminate. Qed.

(** X8. The purpose of a recorded hearing, when there is one, has at most 60
    characters, each of them a word character (a letter, a digit or an
    underscore), a space or one of [,./()-], and no whitespace at either
    end. *)
Theorem recorded_purposes_are_short_and_trimmed :
  forall text,
    Forall (fun h => match h_purpose h with
                     | Some p => length p <= 60 /\ forallb purpose_mark p = true
                                 /\ trimmed p
                     | None => True
                     end)
           (hearings (extract_case_overview text)).
Proof.
  intro text. rewrite hearings_scan. apply Forall_map, Forall_forall.
  intros i _. cbn [entry_at h_purpose].
  destruct (field purpose_re (window_of text i)) as [p|] eqn:E; [|exact I].
  apply purpose_found in E as (L & F & T).
  split; [exact L|]. split; [|exact T].
  eapply forallb_impl; [|exact F]. apply purpose_char_mark.
Qed.

Lemma spaced_bound (limit : nat) :
  forall l lo,
    StronglySorted (fun i j => i + 10 <= j) l ->
    Forall (fun i => lo <= i /\ i + 10 <= limit) l ->
    10 * length l + lo <= limit \/ l = [].
Proof.
  induction l as [|x l IH]; intros lo S F; [now right|]. left.
  apply StronglySorted_inv in S as [S Hx].
  apply Forall_cons_iff in F as [[Lx Ux] F].
  destruct (IH (x + 10) S) as [B | ->]; [|cbn; lia|cbn; lia].
  rewrite Forall_forall in *. intros j Hj. split; [now apply Hx | now apply F].
Qed.

Lemma date_needs_ten (text : str) (i : nat) :
  is_ddmmyyyy (firstn 10 (skipn i text)) = true -> i + 10 <= length text.
Proof.
  intro H.
  assert (L : length (firstn 10 (skipn i text)) = 10).
  { destruct (firstn 10 (skipn i text)) as [|a [|b [|c [|d [|e [|f [|g [|h [|j [|k [|l t]]]]]]]]]]];
      try discriminate H; reflexivity. }
  rewrite length_firstn, length_skipn in L. lia.
Qed.

(** X9. Every recorded hearing date is a DD-MM-YYYY text that occurs in the
    page text, a text of n characters gives at most n/10 hearings, and the
    hearings contain a target date only if the page text contains it. *)
Theorem hearing_dates_come_from_the_text :
  forall text,
    Forall (fun h => contains (h_date h) text = true
                     /\ is_ddmmyyyy (h_date h) = true)
           (hearings (extract_case_overview text))
    /\ 10 * length (hearings (extract_case_overview text)) <= length text
    /\ forall t, is_date_in_hearings (hearings (extract_case_overview text)) t = true ->
                 contains t text = true /\ is_ddmmyyyy t = true.
Proof.
  intro text.
  assert (A : Forall (fun h => contains (h_date h) text = true
                               /\ is_ddmmyyyy (h_date h) = true)
                     (hearings (extract_case_overview text))).
  { pose proof (hearing_dates_have_form text) as F.
    rewrite hearings_scan in *. rewrite Forall_map in *.
    eapply Forall_impl; [|exact F]. cbn [entry_at h_date]. intros i D.
    split; [|exact D]. rewrite slice_ten.
    rewrite <- (firstn_skipn i text) at 2.
    rewrite <- (firstn_skipn 10 (skipn i text)) at 2.
    apply contains_intro. }
  split; [exact A|]. split.
  - rewrite hearings_scan, length_map.
    destruct (scan_dates_props text 0) as (F & S & _).
    destruct (spaced_bound (length text) (scan_dates text 0) 0 S) as [B | ->];
      [|lia|cbn; lia].
    eapply Forall_impl; [|exact F]. intros i [L D].
    split; [lia | now apply date_needs_ten].
  - intros t H. unfold is_date_in_hearings in H.
    apply existsb_exists in H as (h & Hin & E). apply eqb_str_eq in E. subst t.
    rewrite Forall_forall in A. now apply A.
Qed.

Lemma hearing_dates_come_from_the_text_witness :
  let text := lit "Next date 05-03-2025 Purpose: Arguments" in
  is_date_in_hearings (hearings (extract_case_overview text)) (lit "05-03-2025") = true
  /\ contains (lit "05-03-2025") text = true.
Proof.
  intro text.
  assert (E : is_date_in_hearings (hearings (extract_case_overview text))
                (lit "05-03-2025") = true) by (vm_compute; reflexivity).
  split; [exact E|].
  destruct (hearing_dates_come_from_the_text text) as (_ & _ & H).
  apply (H _ E).
Defined.

(** X19. A court name that is found contains no line break and has no
    whitespace at either end. *)
Theorem court_name_is_one_trimmed_line :
  forall text name,
    court_name (extract_case_overview text) = Some name ->
    forallb not_newline name = true /\ trimmed name.
Proof.
  intros text name. cbn [extract_case_overview court_name]. unfold court_re.
  intro H. apply field_labelled in H as (w & D & ->).
  apply derives_rep_inv in D as (_ & _ & F).
  split; [|apply strip_trimmed].
  destruct (strip_infix w) as (w1 & w2 & E).
  rewrite E in F. now apply forallb_infix in F.
Qed.

Lemma court_name_is_one_trimmed_line_witness :
  let text := lit "Court Name:  Civil Judge, Pune" in
  court_name (extract_case_overview text) = Some (lit "Civil Judge, Pune")
  /\ forallb not_newline (lit "Civil Judge, Pune") = true.
Proof.
  intro text.
  assert (E : court_name (extract_case_overview text) = Some (lit "Civil Judge, Pune"))
    by (vm_compute; reflexivity).
  split; [exact E|].
  apply (court_name_is_one_trimmed_line text _ E).
Defined.

End FieldFacts.

(** ** The schedule-table extractor: the optional fields *)

Module RowFieldFacts.

Import PyFacts ReFacts ScheduleFacts CnrFacts.

Lemma in_firstn {A} (n : nat) (l : list A) (x : A) : In x (firstn n l) -> In x l.
Proof. intro H. rewrite <- (firstn_skipn n l). apply in_or_app. now left. Qed.

Lemma in_skipn {A} (n : nat) (l : list A) (x : A) : In x (skipn n l) -> In x l.
Proof. intro H. rewrite <- (firstn_skipn n l). apply in_or_app. now right. Qed.

(** A pattern that starts with a letter finds nothing in a text of digits. *)
Lemma search_digits (r : regex) (s : str) :
  letter_first r -> forallb isdecimal s = true -> found r s = false.
Proof.
  intros L F. unfold found, search.
  destruct (search_from r 0 None s) as [m|] eqn:E; [|reflexivity].
  apply search_from_sound in E as (i & _ & Hm & _).
  apply match_at_sound in Hm as (n & g & S & _).
  apply spans_derives in S. rewrite rest_advance in S. cbn [c_rest] in S.
  destruct (L _ S) as (a & t & Ew & Na).
  assert (Hin : In a s).
  { assert (Ha : In a (firstn n (skipn i s))) by (rewrite Ew; now left).
    apply in_firstn in Ha. now apply in_skipn in Ha. }
  rewrite forallb_forall in F. rewrite (F a Hin) in Na. discriminate Na.
Qed.

Lemma same_i_head (x : ascii) (xs : string) (w : str) :
  same_i (String x xs) w -> exists a t, w = a :: t /\ lower_char a = lower_char x.
Proof.
  unfold same_i. cbn [lit list_ascii_of_string lower map].
  destruct w as [|a t]; [discriminate|]. cbn [lower map].
  intros [= E _]. now exists a, t.
Qed.

Lemma digit_lower (a : ascii) : isdecimal a = true -> lower_char a = a.
Proof. destruct a as [[] [] [] [] [] [] [] []]; try reflexivity; discriminate. Qed.

Lemma letter_lower_not_digit (x : ascii) :
  isalpha_ascii x = true -> isdecimal (lower_char x) = false.
Proof. destruct x as [[] [] [] [] [] [] [] []]; try reflexivity; discriminate. Qed.

Lemma letter_not_digit (x a : ascii) :
  isalpha_ascii x = true -> lower_char a = lower_char x -> isdecimal a = false.
Proof.
  intros X E. destruct (isdecimal a) eqn:D; [|reflexivity].
  rewrite (digit_lower a D) in E. subst a.
  now rewrite (letter_lower_not_digit x X) in D.
Qed.

Lemma chars_i_letter_first (x : ascii) (xs : string) :
  isalpha_ascii x = true -> letter_first (chars_i (String x xs)).
Proof.
  intros X w D. apply derives_chars_i in D.
  apply same_i_head in D as (a & t & -> & E).
  exists a, t. split; [reflexivity | now apply (letter_not_digit x)].
Qed.

Lemma alt_letter_first (r1 r2 : regex) :
  letter_first r1 -> letter_first r2 -> letter_first (Alt r1 r2).
Proof. intros L1 L2 w D. inversion D; subst; auto. Qed.

Lemma purpose_word_letter_first : letter_first purpose_word_re.
Proof.
  intros w D. unfold purpose_word_re in D. apply derives_grp_inv in D.
  revert w D. repeat apply alt_letter_first; now apply chars_i_letter_first.
Qed.

Lemma court_word_letter_first : letter_first court_word_re.
Proof.
  intros w D. unfold court_word_re in D. cbn [cat_all fold_right] in D.
  apply derives_cat_inv in D as (w0 & r1 & -> & D0 & D).
  apply derives_cat_inv in D as (w1 & r2 & -> & D1 & D).
  inversion D0; subst. cbn [app].
  destruct (chars_i_letter_first "C" "ourt" eq_refl w1 D1) as (a & t & -> & Na).
  now exists a, (t ++ r2).
Qed.

Lemma find_among {A} (p : A -> bool) (l : list A) (x : A) :
  find p l = Some x -> In x l.
Proof. intro H. now apply find_some in H. Qed.

(** X10. In every emitted row the case text, when present, is one of cells 2
    to 4 of the row, and the purpose and the court, when present, are cells
    after the first: no optional field is ever the serial cell. *)
Theorem optional_fields_are_later_cells :
  forall soup,
    match parse_cause_list_html soup with
    | Ok rows =>
        Forall (fun r => among (case_text r) (slice 1 4 (raw_cells r))
                         /\ among (purpose r) (tl (raw_cells r))
                         /\ among (court_info r) (tl (raw_cells r))
                         /\ incl (slice 1 4 (raw_cells r)) (tl (raw_cells r)))
               rows
    | Raise _ => False
    end.
Proof.
  intro soup. unfold parse_cause_list_html. rewrite extract_schedule_rows_spec.
  apply Forall_map, Forall_forall. intros tds Hin.
  apply filter_In in Hin as [_ D].
  unfold is_data_row in D. apply andb_true_iff in D as [_ S].
  destruct tds as [|first rest]; [discriminate S|].
  cbn [hd] in S. unfold is_serial in S. apply andb_true_iff in S as [_ Dg].
  cbn [row_of case_text purpose court_info raw_cells tl find].
  rewrite (search_digits _ first purpose_word_letter_first Dg).
  rewrite (search_digits _ first court_word_letter_first Dg).
  repeat split.
  - destruct (find _ (slice 1 4 (first :: rest))) as [c|] eqn:E; [|exact I].
    now apply find_among in E.
  - destruct (find (found purpose_word_re) rest) as [c|] eqn:E; [|exact I].
    now apply find_among in E.
  - destruct (find (found court_word_re) rest) as [c|] eqn:E; [|exact I].
    now apply find_among in E.
  - unfold slice. cbn [skipn]. intros c Hc. now apply in_firstn in Hc.
Qed.

End RowFieldFacts.

(** ** The case matcher: what it ignores and what it always finds *)

Module MatcherLaws.

Import PyFacts MatcherFacts.

Lemma space_lower (c : ascii) : isspace c = true -> lower_char c = c.
Proof. destruct c as [[] [] [] [] [] [] [] []]; try reflexivity; discriminate. Qed.

Lemma lower_char_idem (c : ascii) : lower_char (lower_char c) = lower_char c.
Proof. destruct c as [[] [] [] [] [] [] [] []]; reflexivity. Qed.

Lemma lower_idem (s : str) : lower (lower s) = lower s.
Proof.
  unfold lower. rewrite map_map. apply map_ext. apply lower_char_idem.
Qed.

Lemma lower_app (u v : str) : lower (u ++ v) = lower u ++ lower v.
Proof. apply map_app. Qed.

(** Collapsing whitespace and lower-casing commute. *)
Lemma collapse_lower (b : bool) (s : str) :
  collapse_from b (lower s) = lower (collapse_from b s).
Proof.
  revert b. induction s as [|c s IH]; intro b; [reflexivity|].
  cbn [lower map collapse_from]. rewrite isspace_lower_char.
  destruct (isspace c); [destruct b|]; cbn [lower map]; now rewrite <- ?IH.
Qed.

Lemma normalize_lower (s : str) : normalize (lower s) = normalize s.
Proof.
  rewrite !normalize_spec. unfold collapse_ws.
  now rewrite collapse_lower, lower_idem.
Qed.

Lemma join_lower (cells : list str) :
  lower (join (lit " ") cells) = join (lit " ") (map lower cells).
Proof.
  induction cells as [|x [|y t] IH]; [reflexivity | reflexivity |].
  change (join (lit " ") (x :: y :: t)) with (x ++ lit " " ++ join (lit " ") (y :: t)).
  change (join (lit " ") (map lower (x :: y :: t)))
    with (lower x ++ lit " " ++ join (lit " ") (map lower (y :: t))).
  now rewrite !lower_app, IH.
Qed.

(** X11. The matcher ignores letter case on both sides: identifiers that are
    equal up to case give the same result, and whether a row qualifies depends
    on its cells up to case only. *)
Theorem matching_ignores_case :
  (forall rows identifier identifier',
      lower identifier = lower identifier' ->
      find_case_in_cause_list rows identifier
      = find_case_in_cause_list rows identifier')
  /\ (forall identifier row row',
        map lower (raw_cells row) = map lower (raw_cells row') ->
        qualifies identifier row = qualifies identifier row').
Proof.
  split.
  - intros rows k k' E. unfold find_case_in_cause_list.
    now rewrite <- (normalize_lower k), E, normalize_lower.
  - intros k r r' E. unfold qualifies, collapse_ws.
    now rewrite <- !collapse_lower, !join_lower, E.
Qed.

Lemma matching_ignores_case_witness :
  let row := {| serial := lit "12"; case_text := None; purpose := None;
                court_info := None;
                raw_cells := [lit "12"; lit "OS 45/2023"; lit "Evidence"] |} in
  lower (lit "os 45/2023") = lower (lit "Os 45/2023")
  /\ find_case_in_cause_list [row] (lit "os 45/2023") = Some row
  /\ find_case_in_cause_list [row] (lit "Os 45/2023") = Some row.
Proof.
  intro row.
  assert (E : lower (lit "os 45/2023") = lower (lit "Os 45/2023")) by reflexivity.
  split; [exact E|].
  rewrite <- (proj1 matching_ignores_case [row] _ _ E).
  split; vm_compute; reflexivity.
Defined.

Lemma tidy_collapse (b : bool) (s : str) : tidy b (collapse_from b s) = true.
Proof.
  revert b. induction s as [|c s IH]; intro b; [reflexivity|].
  cbn [collapse_from]. destruct (isspace c) eqn:C.
  - destruct b; [apply IH|]. cbn [tidy].
    change (isspace " "%char) with true. cbn. apply IH.
  - cbn [tidy]. rewrite C. apply IH.
Qed.

Lemma tidy_weaken (b : bool) (s : str) : tidy b s = true -> tidy false s = true.
Proof.
  destruct s as [|c s]; [reflexivity|]. cbn [tidy].
  destruct (isspace c); [|trivial]. destruct b; [|trivial].
  rewrite andb_false_r. discriminate.
Qed.

Lemma tidy_lower (b : bool) (s : str) : tidy b (lower s) = tidy b s.
Proof.
  revert b. induction s as [|c s IH]; intro b; [reflexivity|].
  cbn [lower map tidy]. rewrite isspace_lower_char.
  destruct (isspace c) eqn:C; [|apply IH].
  rewrite (space_lower c C). f_equal. apply IH.
Qed.

Lemma tidy_prefix (b : bool) (u v : str) : tidy b (u ++ v) = true -> tidy b u = true.
Proof.
  revert b. induction u as [|c u IH]; intro b; [reflexivity|].
  cbn [app tidy]. destruct (isspace c); [|apply IH].
  intro H. apply andb_true_iff in H as [H T]. rewrite H. apply (IH true T).
Qed.

Lemma tidy_suffix (b : bool) (u v : str) : tidy b (u ++ v) = true -> tidy false v = true.
Proof.
  revert b. induction u as [|c u IH]; intro b; [apply tidy_weaken|].
  cbn [app tidy]. destruct (isspace c); [|apply IH].
  intro H. apply andb_true_iff in H as [_ T]. apply (IH true T).
Qed.

Lemma collapse_tidy (b : bool) (s : str) : tidy b s = true -> collapse_from b s = s.
Proof.
  revert b. induction s as [|c s IH]; intro b; [reflexivity|].
  cbn [tidy collapse_from]. destruct (isspace c).
  - intro H. apply andb_true_iff in H as [H T]. apply andb_true_iff in H as [E B].
    apply eqb_char_eq in E. subst c. destruct b; [discriminate B|].
    now rewrite (IH true T).
  - intro T. now rewrite (IH false T).
Qed.

Lemma lstrip_kept (s : str) :
  (forall c t, s = c :: t -> isspace c = false) -> lstrip s = s.
Proof.
  destruct s as [|c t]; [reflexivity|]. intro H. cbn [lstrip].
  now rewrite (H c t eq_refl).
Qed.

Lemma strip_idem (s : str) : strip (strip s) = strip s.
Proof.
  unfold strip at 1. rewrite lstrip_kept.
  - unfold rstrip. rewrite lstrip_kept; [apply rev_involutive|].
    intros c t E. apply (strip_last s (rev t) c).
    rewrite <- (rev_involutive (strip s)), E. reflexivity.
  - intros c t E. apply (strip_head s c t E).
Qed.

Lemma strip_part (s : str) : exists w1 w2, s = w1 ++ strip s ++ w2.
Proof.
  destruct (lstrip_suffix s) as (w1 & E1 & _).
  destruct (rstrip_prefix (lstrip s)) as (w2 & E2 & _).
  exists w1, w2. unfold strip. now rewrite <- E2.
Qed.

Lemma normalize_idem (s : str) : normalize (normalize s) = normalize s.
Proof.
  rewrite (normalize_spec (normalize s)). unfold collapse_ws.
  assert (T : tidy false (normalize s) = true).
  { rewrite normalize_spec.
    destruct (strip_part (lower (collapse_ws s))) as (w1 & w2 & E).
    assert (T0 : tidy false (lower (collapse_ws s)) = true)
      by (rewrite tidy_lower; apply tidy_collapse).
    rewrite E in T0. apply tidy_suffix in T0. now apply tidy_prefix in T0. }
  rewrite (collapse_tidy false _ T), normalize_spec.
  now rewrite strip_lower, strip_idem, <- strip_lower, lower_idem.
Qed.

(** X12. Normalizing is idempotent, so an identifier normalized beforehand is
    matched like the identifier itself. *)
Theorem normalized_identifier_matches_alike :
  forall rows identifier,
    normalize (normalize identifier) = normalize identifier
    /\ find_case_in_cause_list rows (normalize identifier)
       = find_case_in_cause_list rows identifier.
Proof.
  intros rows k. split; [apply normalize_idem|].
  unfold find_case_in_cause_list. now rewrite normalize_idem.
Qed.

Lemma collapse_app (b : bool) (u v : str) :
  collapse_from b (u ++ v) = collapse_from b u ++ collapse_from (state_after b u) v.
Proof.
  revert b. induction u as [|c u IH]; intro b; [reflexivity|].
  cbn [app collapse_from state_after]. destruct (isspace c).
  - destruct b; [apply IH|]. now rewrite IH.
  - now rewrite IH.
Qed.

Lemma strip_collapse_state (b : bool) (k : str) :
  strip (collapse_from b k) = strip (collapse_from false k).
Proof.
  destruct b; [|reflexivity]. destruct k as [|c k]; [reflexivity|].
  cbn [collapse_from]. destruct (isspace c); reflexivity.
Qed.

Lemma join_in (sep : str) (cells : list str) (cell : str) :
  In cell cells -> exists a b, join sep cells = a ++ cell ++ b.
Proof.
  induction cells as [|x [|y t] IH]; intro H; [destruct H | |].
  - destruct H as [-> | []]. exists [], []. cbn. now rewrite app_nil_r.
  - change (join sep (x :: y :: t)) with (x ++ sep ++ join sep (y :: t)).
    destruct H as [-> | H].
    + exists [], (sep ++ join sep (y :: t)). reflexivity.
    + destruct (IH H) as (a & b & ->).
      exists (x ++ sep ++ a), b. now rewrite <- !app_assoc.
Qed.

Lemma contains_lower (u v : str) :
  contains u v = true -> contains (lower u) (lower v) = true.
Proof.
  intro H. apply contains_inv in H as (a & b & ->).
  rewrite !lower_app. apply contains_intro.
Qed.

Lemma contains_part (k a b : str) (st : bool) :
  contains (strip (collapse_ws k)) (collapse_from st (a ++ k ++ b)) = true.
Proof.
  rewrite !collapse_app.
  destruct (strip_part (collapse_from (state_after st a) k)) as (w1 & w2 & E).
  rewrite strip_collapse_state in E. fold (collapse_ws k) in E.
  rewrite E.
  replace (collapse_from st a ++ (w1 ++ strip (collapse_ws k) ++ w2)
           ++ collapse_from (state_after (state_after st a) k) b)
    with ((collapse_from st a ++ w1) ++ strip (collapse_ws k)
          ++ (w2 ++ collapse_from (state_after (state_after st a) k) b))
    by (rewrite <- !app_assoc; reflexivity).
  apply contains_intro.
Qed.

Lemma verbatim_qualifies (k : str) (row : ScheduleRow) (cell x y : str) :
  In cell (raw_cells row) -> cell = x ++ k ++ y -> qualifies k row = true.
Proof.
  intros Hin ->. unfold qualifies.
  destruct (join_in (lit " ") _ _ Hin) as (a & b & ->).
  rewrite strip_lower. apply contains_lower.
  replace (a ++ (x ++ k ++ y) ++ b) with ((a ++ x) ++ k ++ (y ++ b))
    by (rewrite <- !app_assoc; reflexivity).
  apply contains_part.
Qed.

(** X13. No false negative for a verbatim occurrence of an ASCII identifier:
    when some cell of some row contains the identifier as it is written, the
    matcher returns a row, and that row qualifies. *)
Theorem verbatim_identifier_is_matched :
  forall rows row cell before after identifier,
    forallb is_ascii identifier = true ->
    In row rows -> In cell (raw_cells row) ->
    cell = before ++ identifier ++ after ->
    exists r, find_case_in_cause_list rows identifier = Some r
              /\ qualifies identifier r = true.
Proof.
  intros rows row cell x y k _ Hrow Hcell E.
  pose proof (verbatim_qualifies k row cell x y Hcell E) as Q.
  unfold find_case_in_cause_list.
  rewrite (find_ext _ (qualifies k)) by (intro r; apply key_test_qualifies).
  pose proof (find_first (qualifies k) rows) as F.
  destruct (find (qualifies k) rows) as [r|].
  - exists r. split; [reflexivity|]. now destruct F as (_ & _ & _ & P & _).
  - rewrite Forall_forall in F. rewrite (F row Hrow) in Q. discriminate Q.
Qed.

Lemma verbatim_identifier_is_matched_witness :
  let row := {| serial := lit "3"; case_text := None; purpose := None;
                court_info := None;
                raw_cells := [lit "3"; lit "in OS  45/2023 (part heard)"] |} in
  forallb is_ascii (lit "OS  45/2023") = true
  /\ In row [row] /\ In (lit "in OS  45/2023 (part heard)") (raw_cells row)
  /\ exists r, find_case_in_cause_list [row] (lit "OS  45/2023") = Some r.
Proof.
  intro row.
  assert (H0 : forallb is_ascii (lit "OS  45/2023") = true) by reflexivity.
  assert (H1 : In row [row]) by now left.
  assert (H2 : In (lit "in OS  45/2023 (part heard)") (raw_cells row))
    by (right; now left).
  split; [exact H0|]. split; [exact H1|]. split; [exact H2|].
  destruct (verbatim_identifier_is_matched [row] row _ (lit "in ") (lit " (part heard)")
              (lit "OS  45/2023") H0 H1 H2 eq_refl) as (r & E & _).
  now exists r.
Defined.

End MatcherLaws.

(** ** The run: steps 1 to 3 of main, the snapshot and the console *)

Module MainFacts.

Import PyFacts ScheduleFacts ResolverFacts.

Lemma fetched_rows (soup : node) :
  parse_cause_list_html soup = Ok (map row_of (filter is_data_row (visited_rows soup))).
Proof. apply extract_schedule_rows_spec. Qed.

Lemma find_case_in (entries : list ScheduleRow) (key : str) (m : ScheduleRow) :
  find_case_in_cause_list entries key = Some m -> In m entries.
Proof. unfold find_case_in_cause_list. intro H. now apply find_some in H. Qed.

(** The search of the cause list: details come from the matched row, and a
    flag is true only together with details. *)
Lemma schedule_step_origin entries key today tomorrow :
  let '(details, lt, lm) := schedule_step entries key today tomorrow in
  (forall x, details = Some x ->
             exists m, In m entries /\ x = details_of m
                       /\ find_case_in_cause_list entries (text_of key) = Some m)
  /\ (lt = Some true -> details <> None)
  /\ (lm = Some true -> details <> None)
  /\ (lt <> None -> today = true) /\ (lm <> None -> tomorrow = true).
Proof.
  unfold schedule_step.
  destruct entries as [|row rows]; [|destruct (truthy key)];
    try (repeat split; intros; congruence).
  destruct (find_case_in_cause_list (row :: rows) (text_of key)) as [m|] eqn:F.
  - repeat split; try discriminate.
    + intros x [= <-]. exists m. split; [now apply find_case_in in F | now split].
    + destruct today; [reflexivity | intro H; now destruct H].
    + destruct tomorrow; [reflexivity | intro H; now destruct H].
  - repeat split; try discriminate.
    + destruct today; discriminate.
    + destruct tomorrow; discriminate.
    + destruct today; [reflexivity | intro H; now destruct H].
    + destruct tomorrow; [reflexivity | intro H; now destruct H].
Qed.

(** The fallback for one flag: it keeps a flag that is set and otherwise, when
    asked, answers from the hearings. *)
Lemma hearing_step_origin o utcnow days wanted flag out :
  hearing_step (hearings o) utcnow days wanted flag = Ok out ->
  out = flag
  \/ (flag = None /\ wanted = true
      /\ exists t, date_str_ist utcnow days = Ok t
                   /\ out = Some (is_date_in_hearings (hearings o) t)).
Proof.
  unfold hearing_step. destruct wanted, flag as [b|]; cbn; try (intros [= <-]; now left).
  destruct (date_str_ist utcnow days) as [t|e]; cbn; [|discriminate].
  intros [= <-]. right. repeat split. now exists t.
Qed.

(** Where the parts of a decision come from: details from a matched row, a
    true flag from a matched row or from a hearing on the day asked for. *)
Lemma decision_origin ov entries key today tomorrow utcnow d :
  resolve_listing ov entries key today tomorrow utcnow = Ok d ->
  (forall x, listing_details d = Some x ->
             exists m, In m entries /\ x = details_of m
                       /\ find_case_in_cause_list entries (text_of key) = Some m)
  /\ (listed_today d = Some true ->
      listing_details d <> None
      \/ exists o t, ov = Some o /\ date_str_ist utcnow 0 = Ok t /\ heard_on o t)
  /\ (listed_tomorrow d = Some true ->
      listing_details d <> None
      \/ exists o t, ov = Some o /\ date_str_ist utcnow 1 = Ok t /\ heard_on o t)
  /\ (listed_today d <> None -> today = true)
  /\ (listed_tomorrow d <> None -> tomorrow = true).
Proof.
  unfold resolve_listing.
  pose proof (schedule_step_origin entries key today tomorrow) as S.
  destruct (schedule_step entries key today tomorrow) as [[details lt] lm].
  destruct S as (D & T & M & Rt & Rm).
  assert (Plain : forall d',
             d' = {| listed_today := lt; listed_tomorrow := lm;
                     listing_details := details |} ->
             (forall x, listing_details d' = Some x ->
                        exists m, In m entries /\ x = details_of m
                                  /\ find_case_in_cause_list entries (text_of key) = Some m)
             /\ (listed_today d' = Some true ->
                 listing_details d' <> None
                 \/ exists o t, ov = Some o /\ date_str_ist utcnow 0 = Ok t /\ heard_on o t)
             /\ (listed_tomorrow d' = Some true ->
                 listing_details d' <> None
                 \/ exists o t, ov = Some o /\ date_str_ist utcnow 1 = Ok t /\ heard_on o t)
             /\ (listed_today d' <> None -> today = true)
             /\ (listed_tomorrow d' <> None -> tomorrow = true)).
  { intros d' ->. cbn. repeat split; auto. }
  destruct ov as [o|]; [|intros [= <-]; now apply Plain].
  destruct (today || tomorrow); [|intros [= <-]; now apply Plain].
  destruct (hearing_step (hearings o) utcnow 0 today lt) as [lt'|e] eqn:H0;
    cbn [bind]; [|discriminate].
  destruct (hearing_step (hearings o) utcnow 1 tomorrow lm) as [lm'|e] eqn:H1;
    cbn [bind]; [|discriminate].
  intros [= <-]. cbn.
  apply hearing_step_origin in H0, H1.
  split; [exact D|]. split; [|split; [|split]].
  - intro E. destruct H0 as [-> | (_ & _ & t & Et & ->)]; [left; now apply T|].
    right. exists o, t. repeat split; [exact Et|].
    injection E as E. now apply is_date_in_hearings_spec.
  - intro E. destruct H1 as [-> | (_ & _ & t & Et & ->)]; [left; now apply M|].
    right. exists o, t. repeat split; [exact Et|].
    injection E as E. now apply is_date_in_hearings_spec.
  - intro E. destruct H0 as [-> | (_ & W & _)]; [now apply Rt | exact W].
  - intro E. destruct H1 as [-> | (_ & W & _)]; [now apply Rm | exact W].
Qed.

(** The rows step 2 hands to step 3. *)
Lemma main_core_finished cli status_page causelist_page utcnow r :
  main_core cli status_page causelist_page utcnow = Finished r ->
  let args := cli_args cli in
  let ov := if truthy (cli_cnr cli)
            then Some (parse_case_status_html status_page) else None in
  let flows := cli_causelist cli || a_today args || a_tomorrow args in
  let entries := if flows
                 then map row_of (filter is_data_row (visited_rows causelist_page))
                 else [] in
  exists d,
    listing_of_run args ov entries utcnow = Ok d
    /\ r = {| rr_case_overview := ov;
              rr_is_listed_today := listed_today d;
              rr_is_listed_tomorrow := listed_tomorrow d;
              rr_listing_details := listing_details d;
              rr_cause_list :=
                match entries with
                | [] => None
                | _ :: _ => Some {| cl_count := length entries; cl_entries := entries |}
                end |}.
Proof.
  unfold main_core. rewrite fetched_rows.
  destruct (truthy (a_case_type (cli_args cli)) && _); [discriminate|].
  cbv zeta.
  destruct (cli_causelist cli || a_today (cli_args cli) || a_tomorrow (cli_args cli)).
  - destruct (listing_of_run _ _ _ utcnow) as [d|e]; [|discriminate].
    intros [= <-]. now exists d.
  - destruct (listing_of_run _ _ _ utcnow) as [d|e]; [|discriminate].
    intros [= <-]. now exists d.
Qed.

Lemma resolve_with_overview o entries key today tomorrow utcnow :
  clock_ok utcnow ->
  exists d,
    resolve_listing (Some o) entries key today tomorrow utcnow = Ok d
    /\ (today = true -> exists b, listed_today d = Some b)
    /\ (tomorrow = true -> exists b, listed_tomorrow d = Some b).
Proof.
  intro Hc.
  destruct (date_str_ist_ok utcnow 0 Hc) as [t0 E0]; [lia|].
  destruct (date_str_ist_ok utcnow 1 Hc) as [t1 E1]; [lia|].
  unfold resolve_listing, hearing_step.
  destruct (schedule_step entries key today tomorrow) as [[details lt] lm].
  destruct today, tomorrow, lt as [bt|], lm as [bm|]; cbn; rewrite ?E0, ?E1; cbn;
    eexists; (split; [reflexivity|]); cbn; split; intro X;
    try discriminate X; eexists; reflexivity.
Qed.

(** X14. In a run with --cnr (and a clock before year 9999) the run finishes,
    the overview is the parsed status page, and a flag is resolved to true or
    false exactly when it was requested, whatever the two pages show. *)
Theorem cnr_run_resolves_requested_flags :
  forall cli status_page causelist_page utcnow,
    truthy (cli_cnr cli) = true -> a_case_type (cli_args cli) = None ->
    clock_ok utcnow ->
    exists r,
      main_core cli status_page causelist_page utcnow = Finished r
      /\ rr_case_overview r = Some (parse_case_status_html status_page)
      /\ (rr_is_listed_today r <> None <-> a_today (cli_args cli) = true)
      /\ (rr_is_listed_tomorrow r <> None <-> a_tomorrow (cli_args cli) = true).
Proof.
  intros cli sp cp utcnow Hcnr Htype Hc.
  unfold main_core. rewrite fetched_rows, Hcnr, Htype. cbn [truthy andb]. cbv zeta.
  destruct (cli_causelist cli || a_today (cli_args cli) || a_tomorrow (cli_args cli));
    unfold listing_of_run;
    match goal with
    | |- context [resolve_listing (Some ?o) ?en ?k ?t ?m utcnow] =>
        destruct (resolve_with_overview o en k t m utcnow Hc) as (d & R & T & M);
        pose proof (decision_origin _ _ _ _ _ _ _ R) as (_ & _ & _ & Ot & Om);
        rewrite R
    end;
    (eexists; split; [reflexivity|]; cbn;
     split; [reflexivity|]; split; (split; [assumption|]);
     intro X; [destruct (T X) as [b ->] | destruct (M X) as [b ->]]; discriminate).
Qed.

Lemma cnr_run_resolves_requested_flags_witness :
  let cli := {| cli_cnr := Some (lit "MHAU019999992015");
                cli_args := {| a_case_type := None; a_case_number := None;
                               a_year := None; a_today := true; a_tomorrow := false |};
                cli_causelist := false |} in
  let page := Elem (lit "html") [Elem (lit "body")
                [Elem (lit "p") [Text (lit "Next date 05-03-2025 Purpose: Arguments")]]] in
  let now := {| dt_date := {| d_year := 2025; d_month := 3; d_day := 5 |};
                dt_hour := 4; dt_minute := 0 |} in
  (truthy (cli_cnr cli) = true /\ a_case_type (cli_args cli) = None /\ clock_ok now)
  /\ exists r, main_core cli page page now = Finished r
               /\ rr_is_listed_today r <> None.
Proof.
  intros cli page now.
  assert (H : clock_ok now) by reflexivity.
  split; [split; [reflexivity | split; [reflexivity | exact H]]|].
  destruct (cnr_run_resolves_requested_flags cli page page now eq_refl eq_refl H)
    as (r & E & _ & T & _).
  exists r. split; [exact E|]. now apply T.
Defined.

Lemma truthy_some (o : option str) :
  truthy o = true -> exists c t, o = Some (c :: t).
Proof. destruct o as [[|c t]|]; try discriminate. intros _. now exists c, t. Qed.

(** X15. A run with --case-type, --case-number and --year and without --cnr
    always finishes, whatever the clock shows: there is no overview, a flag is
    resolved exactly when it was requested and the cause-list page has a data
    row, and details are reported only for a row of that page matched by the
    key "type number/year". *)
Theorem case_type_run_depends_on_rows :
  forall cli status_page causelist_page utcnow,
    truthy (cli_cnr cli) = false ->
    truthy (a_case_type (cli_args cli)) = true ->
    truthy (a_case_number (cli_args cli)) = true ->
    truthy (a_year (cli_args cli)) = true ->
    let rows := map row_of (filter is_data_row (visited_rows causelist_page)) in
    let key := text_of (a_case_type (cli_args cli)) ++ lit " "
               ++ text_of (a_case_number (cli_args cli)) ++ lit "/"
               ++ text_of (a_year (cli_args cli)) in
    exists r,
      main_core cli status_page causelist_page utcnow = Finished r
      /\ rr_case_overview r = None
      /\ (rr_is_listed_today r <> None
          <-> a_today (cli_args cli) = true /\ rows <> [])
      /\ (rr_is_listed_tomorrow r <> None
          <-> a_tomorrow (cli_args cli) = true /\ rows <> [])
      /\ (forall x, rr_listing_details r = Some x ->
                    exists m, In m rows /\ x = details_of m
                              /\ find_case_in_cause_list rows key = Some m).
Proof.
  intros cli sp cp utcnow Hcnr Ht Hn Hy rows key.
  unfold main_core. rewrite fetched_rows, Hcnr, Ht, Hn, Hy. cbn [negb orb andb].
  cbv zeta. unfold listing_of_run, case_key_of. rewrite Ht, Hn, Hy. cbn [andb].
  fold key. fold rows.
  assert (K : truthy (Some key) = true).
  { apply truthy_some in Ht as (c & t & E). unfold key. now rewrite E. }
  unfold resolve_listing, schedule_step. rewrite K. cbn [text_of].
  destruct (a_today (cli_args cli)), (a_tomorrow (cli_args cli));
    rewrite ?orb_true_r; cbn [orb];
    try destruct (cli_causelist cli); cbn [orb];
    try (destruct rows as [|row rest] eqn:R;
         [|destruct (find_case_in_cause_list (row :: rest) key) as [m|] eqn:F]);
    eexists; (split; [reflexivity|]); cbn;
    (split; [reflexivity|]);
    (split; [split; [intro X; try (now destruct X); now split
                    | intros [X Y]; try discriminate X; try (now destruct Y);
                      discriminate] |]);
    (split; [split; [intro X; try (now destruct X); now split
                    | intros [X Y]; try discriminate X; try (now destruct Y);
                      discriminate] |]);
    intros x X; try discriminate X; injection X as <-;
    exists m; (split; [now apply find_case_in in F | now split]).
Qed.

Lemma case_type_run_depends_on_rows_witness :
  let cli := {| cli_cnr := None;
                cli_args := {| a_case_type := Some (lit "OS");
                               a_case_number := Some (lit "45");
                               a_year := Some (lit "2023");
                               a_today := true; a_tomorrow := false |};
                cli_causelist := false |} in
  let page :=
    Elem (lit "html") [Elem (lit "body") [Elem (lit "table")
      [Elem (lit "tr") [Elem (lit "td") [Text (lit "12")];
                        Elem (lit "td") [Text (lit "OS 45/2023")];
                        Elem (lit "td") [Text (lit "Evidence")]]]]] in
  let now := {| dt_date := last_date; dt_hour := 23; dt_minute := 59 |} in
  (truthy (cli_cnr cli) = false
   /\ truthy (a_case_type (cli_args cli)) = true
   /\ truthy (a_case_number (cli_args cli)) = true
   /\ truthy (a_year (cli_args cli)) = true)
  /\ exists r, main_core cli page page now = Finished r
               /\ rr_is_listed_today r <> None.
Proof.
  intros cli page now.
  split; [repeat split|].
  destruct (case_type_run_depends_on_rows cli page page now
              eq_refl eq_refl eq_refl eq_refl) as (r & E & _ & T & _).
  exists r. split; [exact E|]. apply T. split; [reflexivity | discriminate].
Defined.

(** X16. In a run with --cnr whose status page shows no case number the cause
    list is never searched, whatever its page shows: no details are reported
    and each requested flag only tells whether a hearing of the overview has
    the date of the day asked for. *)
Theorem cnr_run_without_case_number_ignores_rows :
  forall cli status_page causelist_page utcnow,
    truthy (cli_cnr cli) = true -> a_case_type (cli_args cli) = None ->
    case_number (parse_case_status_html status_page) = None ->
    clock_ok utcnow ->
    let hs := hearings (parse_case_status_html status_page) in
    exists r t0 t1,
      main_core cli status_page causelist_page utcnow = Finished r
      /\ date_str_ist utcnow 0 = Ok t0 /\ date_str_ist utcnow 1 = Ok t1
      /\ rr_listing_details r = None
      /\ rr_is_listed_today r
         = (if a_today (cli_args cli) then Some (is_date_in_hearings hs t0) else None)
      /\ rr_is_listed_tomorrow r
         = (if a_tomorrow (cli_args cli) then Some (is_date_in_hearings hs t1) else None).
Proof.
  intros cli sp cp utcnow Hcnr Htype Hno Hc hs.
  destruct (date_str_ist_ok utcnow 0 Hc) as [t0 E0]; [lia|].
  destruct (date_str_ist_ok utcnow 1 Hc) as [t1 E1]; [lia|].
  unfold main_core. rewrite fetched_rows, Hcnr, Htype. cbn [truthy andb]. cbv zeta.
  unfold listing_of_run, case_key_of. rewrite Htype, Hno. cbn [truthy andb].
  assert (S : forall entries t m, schedule_step entries None t m = (None, None, None)).
  { intros [|row rows] t m; reflexivity. }
  unfold resolve_listing, hearing_step. fold hs.
  destruct (cli_causelist cli || a_today (cli_args cli) || a_tomorrow (cli_args cli));
    rewrite S;
    destruct (a_today (cli_args cli)), (a_tomorrow (cli_args cli));
    cbn; rewrite ?E0, ?E1; cbn;
    eexists; exists t0, t1; repeat split.
Qed.

Lemma cnr_run_without_case_number_ignores_rows_witness :
  let cli := {| cli_cnr := Some (lit "MHAU019999992015");
                cli_args := {| a_case_type := None; a_case_number := None;
                               a_year := None; a_today := true; a_tomorrow := false |};
                cli_causelist := true |} in
  let status :=
    Elem (lit "html") [Elem (lit "body")
      [Elem (lit "p") [Text (lit "Next date 05-03-2025 Purpose: Arguments")]]] in
  let list_page :=
    Elem (lit "html") [Elem (lit "body") [Elem (lit "table")
      [Elem (lit "tr") [Elem (lit "td") [Text (lit "12")];
                        Elem (lit "td") [Text (lit "OS 45/2023")]]]]] in
  let now := {| dt_date := {| d_year := 2025; d_month := 3; d_day := 5 |};
                dt_hour := 4; dt_minute := 0 |} in
  (truthy (cli_cnr cli) = true /\ a_case_type (cli_args cli) = None
   /\ case_number (parse_case_status_html status) = None /\ clock_ok now)
  /\ exists r, main_core cli status list_page now = Finished r
               /\ rr_listing_details r = None.
Proof.
  intros cli status list_page now.
  assert (N : case_number (parse_case_status_html status) = None)
    by (vm_compute; reflexivity).
  assert (H : clock_ok now) by reflexivity.
  split; [split; [reflexivity | split; [reflexivity | split; [exact N | exact H]]]|].
  destruct (cnr_run_without_case_number_ignores_rows cli status list_page now
              eq_refl eq_refl N H) as (r & t0 & t1 & E & _ & _ & D & _).
  exists r. now split.
Defined.

(** X18. What the console says when a run finishes: serial and court are
    those of a row of the snapshot; "listed by date" is said only without
    details, with an overview, and when a hearing has the date of today or
    tomorrow; "not found" is said only when there are no details and no flag
    is true. *)
Theorem console_tells_where_the_answer_came_from :
  forall cli status_page causelist_page utcnow,
    match main_core cli status_page causelist_page utcnow with
    | Finished r =>
        match console_of r with
        | SerialAndCourt s c =>
            exists cl m, rr_cause_list r = Some cl /\ In m (cl_entries cl)
                         /\ s = serial m /\ c = court_info m
        | ListedByDate =>
            rr_listing_details r = None
            /\ exists o days t,
                 rr_case_overview r = Some o /\ days <= 1
                 /\ date_str_ist utcnow days = Ok t /\ heard_on o t
        | NotFound =>
            rr_listing_details r = None
            /\ rr_is_listed_today r <> Some true
            /\ rr_is_listed_tomorrow r <> Some true
        end
    | _ => True
    end.
Proof.
  intros cli sp cp utcnow.
  destruct (main_core cli sp cp utcnow) as [|e|r] eqn:E; try exact I.
  apply main_core_finished in E as (d & R & ->).
  unfold listing_of_run in R.
  apply decision_origin in R as (D & T & M & _).
  unfold console_of. cbn [rr_listing_details rr_is_listed_today rr_is_listed_tomorrow
                          rr_cause_list rr_case_overview].
  destruct (listing_details d) as [x|] eqn:Dx.
  - destruct (D x eq_refl) as (m & Hin & -> & _).
    cbv zeta in *.
    destruct (cli_causelist cli || a_today (cli_args cli) || a_tomorrow (cli_args cli));
      [|destruct Hin].
    destruct (map row_of (filter is_data_row (visited_rows cp))) as [|row rest];
      [destruct Hin|].
    eexists. exists m. repeat split. exact Hin.
  - destruct (listed_today d) as [[|]|] eqn:Lt; cbn [is_true orb].
    + split; [reflexivity|].
      destruct (T eq_refl) as [N | (o & t & Eo & Et & H)]; [now destruct N|].
      exists o, 0, t. repeat split; try assumption. lia.
    + destruct (listed_tomorrow d) as [[|]|] eqn:Lm; cbn [is_true].
      * split; [reflexivity|].
        destruct (M eq_refl) as [N | (o & t & Eo & Et & H)]; [now destruct N|].
        exists o, 1, t. repeat split; try assumption. lia.
      * repeat split; discriminate.
      * repeat split; discriminate.
    + destruct (listed_tomorrow d) as [[|]|] eqn:Lm; cbn [is_true].
      * split; [reflexivity|].
        destruct (M eq_refl) as [N | (o & t & Eo & Et & H)]; [now destruct N|].
        exists o, 1, t. repeat split; try assumption. lia.
      * repeat split; discriminate.
      * repeat split; discriminate.
Qed.

End MainFacts.
